(** * Cellular automata engine ([cax/core/ca.py])

    A shallow embedding of the [CA] and [UnsupervisedCA] classes: the
    single transition [step], the multi-step runner [__call__] built on
    [nnx.scan] (here [run] for the loop over a natural number of steps,
    [call] for the whole call with the checks of the scan, and
    [call_vars] when the sub-units hold variables), and the
    reparameterised [encode].

    Arrays are modelled as a shape together with the row-major list of
    their elements.  The element type is a parameter: nothing in the
    engine inspects individual numbers, only [encode] combines them, and
    it does so through the three operations [+], [*] and [exp]. *)

From Stdlib Require Import List ZArith Lia Bool PeanoNat.
Import ListNotations.

Set Implicit Arguments.

(* ================================================================== *)
(** ** Results of fallible calls *)

(** The ways in which a call into the array library can raise. *)
Inductive Error : Type :=
| AxisError (axis : Z) (rank : nat)
    (* [jnp.moveaxis]: axis out of bounds for the array's rank *)
| ScanLengthError (length : nat) (axis_size : nat)
    (* [scan]: the [length] argument disagrees with the leading axis size *)
| CarryTypeError
    (* [scan]: the body returned a carry of another shape than it was given *)
| BroadcastError (lhs rhs : list nat)
    (* elementwise operation on shapes that cannot be broadcast together *)
| ConcatenateError (lhs rhs : list nat)
    (* [jnp.concatenate]: ranks or trailing dimensions differ *)
| NegativeLengthError (length : Z).
    (* [scan]: a negative [length] agrees with no axis size, and no
       outputs can be stacked along an axis of that length *)

Inductive Result (A : Type) : Type :=
| Ok (a : A)
| Err (e : Error).

Arguments Ok {A} a.
Arguments Err {A} e.

Definition bind {A B : Type} (r : Result A) (k : A -> Result B) : Result B :=
  match r with
  | Ok a => k a
  | Err e => Err e
  end.

Notation "x <- r ;; k" := (bind r (fun x => k))
  (at level 61, r at next level, right associativity).
Notation "' pat <- r ;; k" := (bind r (fun x => match x with pat => k end))
  (at level 61, pat pattern, r at next level, right associativity).

Definition is_ok {A : Type} (r : Result A) : bool :=
  match r with Ok _ => true | Err _ => false end.

Definition is_err {A : Type} (r : Result A) : bool := negb (is_ok r).

(* ================================================================== *)
(** ** Arrays *)

Definition Shape := list nat.

(** Number of elements of an array of the given shape. *)
Definition size (sh : Shape) : nat := fold_right Nat.mul 1 sh.

Fixpoint shape_eqb (a b : Shape) : bool :=
  match a, b with
  | [], [] => true
  | x :: a', y :: b' => (x =? y) && shape_eqb a' b'
  | _, _ => false
  end.

Section Arrays.

Context {F : Type}.

Record Array : Type := mkArray { shape : Shape; data : list F }.

Definition rank (t : Array) : nat := length (shape t).

(** An array library only ever builds arrays holding as many elements
    as their shape says. *)
Definition well_formed (t : Array) : Prop :=
  length (data t) = size (shape t).

(** [block off len l]: the [len] elements of [l] from offset [off]. *)
Definition block (off len : nat) (l : list F) : list F :=
  firstn len (skipn off l).

(** [x[i]]: the [i]-th slice along the leading axis. *)
Definition index0 (i : nat) (t : Array) : Array :=
  let rest := tl (shape t) in
  mkArray rest (block (i * size rest) (size rest) (data t)).

(** [x[None, ...]]: a new leading axis of extent 1. *)
Definition expand_dims0 (t : Array) : Array :=
  mkArray (1 :: shape t) (data t).

(** Stacking the per-iteration outputs of a scan along a new leading
    axis.  [elt] is the shape of one output, which the scan knows even
    when there is no iteration at all. *)
Definition stack (elt : Shape) (ts : list Array) : Array :=
  mkArray (length ts :: elt) (concat (map data ts)).

(** [jnp.concatenate([a, b], axis=0)]. *)
Definition concatenate0 (a b : Array) : Result Array :=
  match shape a, shape b with
  | da :: ra, db :: rb =>
      if shape_eqb ra rb
      then Ok (mkArray ((da + db) :: ra) (data a ++ data b))
      else Err (ConcatenateError (shape a) (shape b))
  | _, _ => Err (ConcatenateError (shape a) (shape b))
  end.

(** An axis index may be negative, counting from the end. *)
Definition axis_index (axis : Z) (rk : nat) : nat :=
  Z.to_nat (if (axis <? 0)%Z then axis + Z.of_nat rk else axis).

Definition axis_in_range (axis : Z) (rk : nat) : bool :=
  ((- Z.of_nat rk <=? axis) && (axis <? Z.of_nat rk))%Z.

Definition canonicalize_axis (axis : Z) (rk : nat) : Result nat :=
  if axis_in_range axis rk
  then Ok (axis_index axis rk)
  else Err (AxisError axis rk).

(** The pieces of a shape around axis [k]. *)
Definition outer (k : nat) (sh : Shape) : nat := size (firstn k sh).
Definition extent (k : nat) (sh : Shape) : nat := nth k sh 0.
Definition inner (k : nat) (sh : Shape) : nat := size (skipn (S k) sh).
Definition drop_axis (k : nat) (sh : Shape) : Shape :=
  firstn k sh ++ skipn (S k) sh.

(** The elements of [t] at position [i] of axis [k], in row-major
    order of the remaining axes. *)
Definition axis_slice (k i : nat) (t : Array) : list F :=
  let sh := shape t in
  concat (map (fun o => block ((o * extent k sh + i) * inner k sh)
                              (inner k sh) (data t))
              (seq 0 (outer k sh))).

(** [jnp.take(x, i, axis=k)]: slice [i] along axis [k]. *)
Definition take (k i : nat) (t : Array) : Array :=
  mkArray (drop_axis k (shape t)) (axis_slice k i t).

(** [jnp.moveaxis(x, k, 0)]: axis [k] becomes the leading axis. *)
Definition moveaxis0 (k : nat) (t : Array) : Array :=
  let sh := shape t in
  mkArray (extent k sh :: drop_axis k sh)
          (concat (map (fun i => axis_slice k i t) (seq 0 (extent k sh)))).

End Arrays.

Arguments Array F : clear implicits.

(* ================================================================== *)
(** ** Elementwise operations with broadcasting *)

(** Shapes are aligned on their trailing axes; [broadcast_rev] works on
    the reversed shapes, last axis first. *)
Fixpoint broadcast_rev (a b : Shape) : option Shape :=
  match a, b with
  | [], _ => Some b
  | _, [] => Some a
  | x :: a', y :: b' =>
      if x =? y then option_map (cons x) (broadcast_rev a' b')
      else if x =? 1 then option_map (cons y) (broadcast_rev a' b')
      else if y =? 1 then option_map (cons x) (broadcast_rev a' b')
      else None
  end.

(** [jnp.broadcast_shapes]. *)
Definition broadcast_shapes (a b : Shape) : option Shape :=
  option_map (@rev nat) (broadcast_rev (rev a) (rev b)).

(** Row-major offset, in an array of (reversed) shape [src], of the
    element shown at offset [j] of its broadcast to (reversed) shape
    [dst]: an axis of extent 1, or a missing leading axis, is repeated. *)
Fixpoint source_offset (src dst : Shape) (j : nat) : nat :=
  match src, dst with
  | d :: src', e :: dst' =>
      (if d =? 1 then 0 else j mod e) + d * source_offset src' dst' (j / e)
  | _, _ => 0
  end.

Section Elementwise.

Context {F : Type}.

(** [jnp.broadcast_to(t, sh)], for a shape [sh] that [t] broadcasts to. *)
Definition broadcast_to (t : Array F) (sh : Shape) : Array F :=
  mkArray sh
    (flat_map (fun j =>
                 match nth_error (data t)
                         (source_offset (rev (shape t)) (rev sh) j) with
                 | Some v => [v]
                 | None => []
                 end)
              (seq 0 (size sh))).

Fixpoint zip_with (f : F -> F -> F) (l r : list F) : list F :=
  match l, r with
  | x :: l', y :: r' => f x y :: zip_with f l' r'
  | _, _ => []
  end.

(** A binary elementwise operation on arrays, as [a + b] or [a * b]. *)
Definition elementwise (f : F -> F -> F) (a b : Array F) : Result (Array F) :=
  match broadcast_shapes (shape a) (shape b) with
  | Some sh =>
      Ok (mkArray sh (zip_with f (data (broadcast_to a sh))
                                 (data (broadcast_to b sh))))
  | None => Err (BroadcastError (shape a) (shape b))
  end.

(** A unary elementwise operation, as [jnp.exp(a)] or [0.5 * a]. *)
Definition pointwise (f : F -> F) (a : Array F) : Array F :=
  mkArray (shape a) (map f (data a)).

End Elementwise.

(* ================================================================== *)
(** ** [scan] *)

Section Scan.

Context {F C Y : Type}.

(** [same_type c c'] holds when the two carries have the same array
    shapes; [scan] rejects a body that does not keep the carry's type. *)
Variable same_type : C -> C -> bool.

Variable f : C -> option (Array F) -> C * Y.

(** The loop of [jax.lax.scan] over the per-iteration inputs [xs].  The
    carry's type is checked at each iteration.  The library checks it
    once, on the types alone, when it traces the body, also for a scan
    without iterations: that check is made by [nnx_scan_traced] below,
    which [call] uses. *)
Fixpoint scan_loop (carry : C) (xs : list (option (Array F)))
  : Result (C * list Y) :=
  match xs with
  | [] => Ok (carry, [])
  | x :: xs' =>
      let '(carry', y) := f carry x in
      if same_type carry carry'
      then '(final, ys) <- scan_loop carry' xs' ;; Ok (final, y :: ys)
      else Err CarryTypeError
  end.

(** What each iteration receives for an argument passed with
    [in_axes = in_axis] to a scan of [length] iterations.  [None] has
    nothing to slice or to repeat; with [in_axis = None] the argument is
    broadcast; otherwise the axis is moved to the front, its extent has
    to be [length], and iteration [i] receives [x[i]]. *)
Definition scan_inputs (in_axis : option Z) (length : nat)
  (input : option (Array F)) : Result (list (option (Array F))) :=
  match input with
  | None => Ok (repeat None length)
  | Some x =>
      match in_axis with
      | None => Ok (repeat (Some x) length)
      | Some axis =>
          k <- canonicalize_axis axis (rank x) ;;
          let xs := moveaxis0 k x in
          let n := hd 0 (shape xs) in
          if n =? length
          then Ok (map (fun i => Some (index0 i xs)) (seq 0 length))
          else Err (ScanLengthError length n)
      end
  end.

(** [nnx.scan(f, in_axes=(nnx.Carry, in_axis), length=length)(init, input)]:
    the final carry and the list of per-iteration outputs. *)
Definition nnx_scan (in_axis : option Z) (length : nat)
  (init : C) (input : option (Array F)) : Result (C * list Y) :=
  xs <- scan_inputs in_axis length input ;;
  scan_loop init xs.

(** The same for any integer [length].  A negative length disagrees with
    the extent of a scanned axis; without a scanned argument it makes a
    scan of no iteration. *)
Definition scan_inputs_int (in_axis : option Z) (length : Z)
  (input : option (Array F)) : Result (list (option (Array F))) :=
  if (length <? 0)%Z
  then match input, in_axis with
       | Some x, Some axis =>
           k <- canonicalize_axis axis (rank x) ;;
           Err (NegativeLengthError length)
       | _, _ => Ok []
       end
  else scan_inputs in_axis (Z.to_nat length) input.

(** What the body receives when it is traced: the argument itself, or
    the leading slice of a scanned argument. *)
Definition traced_input (in_axis : option Z) (input : option (Array F))
  : option (Array F) :=
  match input, in_axis with
  | Some x, Some axis =>
      Some (index0 0 (moveaxis0 (axis_index axis (rank x)) x))
  | _, _ => input
  end.

(** [nnx.scan(f, in_axes=(nnx.Carry, in_axis), length=length)(init, input)]
    for any integer [length]: the arguments are checked against the
    length, the body is traced once on the initial carry, whatever the
    length, and has to return a carry of the same type, and then the
    loop runs. *)
Definition nnx_scan_traced (in_axis : option Z) (length : Z)
  (init : C) (input : option (Array F)) : Result (C * list Y) :=
  xs <- scan_inputs_int in_axis length input ;;
  if same_type init (fst (f init (traced_input in_axis input)))
  then scan_loop init xs
  else Err CarryTypeError.

End Scan.

(* ================================================================== *)
(** ** The engine *)

Section Engine.

Context {F : Type}.

Local Abbreviation State := (Array F).
Local Abbreviation Perception := (Array F).
Local Abbreviation Input := (Array F).

(** [class CA]: the two sub-units held by the engine.  States are
    arrays of the element type [F], which stands for their dtype: the
    units of an engine of this type return arrays of the dtype they are
    given, and a unit that returns another dtype is not described by
    this record. *)
Record CA : Type := mkCA {
  perceive : State -> Perception;
  update : State -> Perception -> option Input -> State
}.

(** [CA.step]. *)
Definition step (self : CA) (state : State) (input : option Input) : State :=
  let perception := perceive self state in
  let state := update self state perception input in
  state.

(** The body scanned by [CA.__call__]; the carry is the pair of the
    engine and the current state. *)
Definition scan_step (all_steps : bool) (carry : CA * State)
  (input : option Input) : (CA * State) * option State :=
  let '(ca, state) := carry in
  let state := step ca state input in
  ((ca, state), if all_steps then Some state else None).

(** Two carries have the same type when their states have the same
    shape: the engine is the same object throughout, and both states
    are arrays of the element type [F], so that their dtypes agree by
    typing. *)
Definition same_carry_type (c c' : CA * State) : bool :=
  shape_eqb (shape (snd c)) (shape (snd c')).

(** The stacked outputs of the scan: nothing when every iteration
    returned [None], otherwise the outputs stacked along a new leading
    axis; one output has the shape of the state. *)
Definition stack_outputs (all_steps : bool) (elt : Shape)
  (ys : list (option State)) : option State :=
  if all_steps
  then Some (stack elt (flat_map (fun y => match y with
                                           | Some t => [t]
                                           | None => []
                                           end) ys))
  else None.

(** [CA.__call__] for a [num_steps] that is a natural number, as the
    loop of the scan sees it; the function itself checks none of its
    arguments.  [call] below takes any integer and adds the check the
    scan makes when it traces the body. *)
Definition run (self : CA) (first_state : State) (input : option Input)
  (num_steps : nat) (all_steps : bool) (input_in_axis : option Z)
  : Result State :=
  '((_, last_state), ys) <-
     nnx_scan same_carry_type (scan_step all_steps)
              input_in_axis num_steps (self, first_state) input ;;
  let states := stack_outputs all_steps (shape first_state) ys in
  if all_steps
  then match states with
       | Some states => concatenate0 (expand_dims0 first_state) states
       | None => Err (ConcatenateError (1 :: shape first_state) [])
       end
  else Ok last_state.

(** [CA.__call__] for any integer [num_steps].  The scan checks its
    arguments and traces the body before the loop; a negative length
    makes no iteration, and its outputs cannot be stacked. *)
Definition call (self : CA) (first_state : State) (input : option Input)
  (num_steps : Z) (all_steps : bool) (input_in_axis : option Z)
  : Result State :=
  '((_, last_state), ys) <-
     nnx_scan_traced same_carry_type (scan_step all_steps)
                     input_in_axis num_steps (self, first_state) input ;;
  let states := stack_outputs all_steps (shape first_state) ys in
  if all_steps
  then if (num_steps <? 0)%Z
       then Err (NegativeLengthError num_steps)
       else match states with
            | Some states => concatenate0 (expand_dims0 first_state) states
            | None => Err (ConcatenateError (1 :: shape first_state) [])
            end
  else Ok last_state.

(** [class UnsupervisedCA(CA)]. *)
Record UnsupervisedCA : Type := mkUnsupervisedCA {
  as_CA : CA;
  encoder : Array F -> Array F * Array F
}.

(** *** Reference points for the statements below *)

(** The state after the transitions fed with the inputs [xs], in order. *)
Definition iterate_steps (self : CA) (s : State) (xs : list (option Input))
  : State :=
  fold_left (step self) xs s.

(** The states after one, two, ... transitions. *)
Fixpoint states_after (self : CA) (s : State) (xs : list (option Input))
  : list State :=
  match xs with
  | [] => []
  | x :: xs' => step self s x :: states_after self (step self s x) xs'
  end.

(** What transition [i] is meant to receive: nothing when there is no
    input, the input itself when it is constant, its slice [i] along
    [input_in_axis] otherwise. *)
Definition input_slice (input : option Input) (input_in_axis : option Z)
  (i : nat) : option Input :=
  match input, input_in_axis with
  | None, _ => None
  | Some x, None => Some x
  | Some x, Some axis => Some (take (axis_index axis (rank x)) i x)
  end.

Definition input_slices (input : option Input) (input_in_axis : option Z)
  (n : nat) : list (option Input) :=
  map (input_slice input input_in_axis) (seq 0 n).

(** An input that can be scanned for [n] steps: with [input_in_axis]
    set, an array whose extent along that axis is [n]. *)
Definition input_fits (input : option Input) (input_in_axis : option Z)
  (n : nat) : Prop :=
  match input, input_in_axis with
  | Some x, Some axis =>
      well_formed x /\ axis_in_range axis (rank x) = true /\
      extent (axis_index axis (rank x)) (shape x) = n
  | _, _ => True
  end.

(** The contract of the sub-units: a transition returns a state of the
    shape it was given (and, being an array of [F] again, of its
    dtype). *)
Definition keeps_state_type (self : CA) : Prop :=
  forall (s : State) (x : option Input),
    well_formed s ->
    well_formed (step self s x) /\ shape (step self s x) = shape s.

End Engine.

Arguments CA F : clear implicits.
Arguments UnsupervisedCA F : clear implicits.

(* ================================================================== *)
(** ** [UnsupervisedCA.encode] *)

Section Encode.

Context {F Key : Type}.

(** Arithmetic on array elements. *)
Variables (add mul : F -> F -> F) (exp : F -> F) (half : F).

(** Element [j] of [jax.random.normal(key, sh)]: a function of the key
    and of the requested shape. *)
Variable normal_sample : Key -> Shape -> nat -> F.

Definition random_normal (key : Key) (sh : Shape) : Array F :=
  mkArray sh (map (normal_sample key sh) (seq 0 (size sh))).

Definition encode (self : UnsupervisedCA F) (target : Array F) (key : Key)
  : Result (Array F) :=
  let '(mean, logvar) := encoder self target in
  noise_std <-
    elementwise mul (random_normal key (shape mean))
                (pointwise exp (pointwise (mul half) logvar)) ;;
  target_enc <- elementwise add mean noise_std ;;
  Ok target_enc.

End Encode.

(* ================================================================== *)
(** ** A small instance over the integers *)

Module Demo.

Local Open Scope Z_scope.

(** Perception returns the state; the update adds 1 to every cell. *)
Definition incr : CA Z :=
  mkCA (fun s => s) (fun s _ _ => pointwise (fun v => v + 1) s).

(** The update adds the first element of the input to every cell. *)
Definition add_input : CA Z :=
  mkCA (fun s => s)
       (fun s _ x => pointwise (fun v => v + hd 0 (match x with
                                                     | Some t => data t
                                                     | None => []
                                                     end)) s).

(** The update adds a leading axis: it does not keep the state's shape. *)
Definition grow : CA Z := mkCA (fun s => s) (fun s _ _ => expand_dims0 s).

Definition zeros : Array Z := mkArray [4; 4; 1]%nat (repeat 0 16).

(** Two and three per-step inputs along axis 0. *)
Definition two_inputs : Array Z := mkArray [2; 1]%nat [5; 7].
Definition three_inputs : Array Z := mkArray [3; 1]%nat [5; 7; 9].

(** An encoder whose log-variance has one element for the whole mean. *)
Definition shared_logvar : UnsupervisedCA Z :=
  mkUnsupervisedCA incr (fun t => (t, mkArray [1]%nat [0])).

(** An encoder returning the target as mean and as log-variance. *)
Definition twin : UnsupervisedCA Z :=
  mkUnsupervisedCA incr (fun t => (t, t)).

(** An encoder whose outputs cannot be broadcast together. *)
Definition clashing : UnsupervisedCA Z :=
  mkUnsupervisedCA incr (fun t => (t, mkArray [3]%nat [0; 0; 0])).

(** Stand-ins for the exponential and the sampler. *)
Definition pow2 (v : Z) : Z := 2 ^ v.
Definition sample (key : Z) (_ : Shape) (j : nat) : Z := key + Z.of_nat j.

Definition vec2 : Array Z := mkArray [2]%nat [10; 20].

End Demo.

(* ================================================================== *)
(** ** The carry check along a run *)

Section CarryCheck.

Context {F : Type}.

(** Whether every transition of the run fed with [xs] returns a state
    of the shape it was given: the test [scan_loop] makes, iteration by
    iteration, on the body of [CA.__call__]. *)
Fixpoint keeps_shape_along (self : CA F) (s : Array F)
  (xs : list (option (Array F))) : bool :=
  match xs with
  | [] => true
  | x :: xs' =>
      shape_eqb (shape s) (shape (step self s x)) &&
      keeps_shape_along self (step self s x) xs'
  end.

(** Every extent of the shape is 1. *)
Definition all_ones (sh : Shape) : bool := forallb (Nat.eqb 1) sh.

End CarryCheck.

(* ================================================================== *)
(** ** Sub-units that hold variables *)

(** The sub-units of an engine are [nnx] modules and may hold variables
    (parameters, counters, random number state).  A call reads them and
    may write them; the scan of [CA.__call__] carries the engine, that
    is its variables, from one transition to the next, and what the
    last transition leaves is what the engine holds after the call.
    [V] is the type of the values of all the variables of an engine. *)

Section StatefulEngine.

Context {F V : Type}.

Local Abbreviation State := (Array F).
Local Abbreviation Perception := (Array F).
Local Abbreviation Input := (Array F).

(** [class CA] with sub-units that read and write the variables. *)
Record StatefulCA : Type := mkStatefulCA {
  perceive_vars : V -> State -> Perception * V;
  update_vars : V -> State -> Perception -> option Input -> State * V
}.

(** [CA.step]: the new state, and the variables after the two calls. *)
Definition step_vars (self : StatefulCA) (vars : V) (state : State)
  (input : option Input) : State * V :=
  let '(perception, vars) := perceive_vars self vars state in
  let '(state, vars) := update_vars self vars state perception input in
  (state, vars).

(** The body scanned by [CA.__call__]; the engine in the carry is
    represented by its variables. *)
Definition scan_step_vars (self : StatefulCA) (all_steps : bool)
  (carry : V * State) (input : option Input)
  : (V * State) * option State :=
  let '(vars, state) := carry in
  let '(state, vars) := step_vars self vars state input in
  ((vars, state), if all_steps then Some state else None).

Definition same_vars_carry_type (c c' : V * State) : bool :=
  shape_eqb (shape (snd c)) (shape (snd c')).

(** [CA.__call__]: the result, and the variables the engine holds after
    the call. *)
Definition call_vars (self : StatefulCA) (vars : V) (first_state : State)
  (input : option Input) (num_steps : Z) (all_steps : bool)
  (input_in_axis : option Z) : Result (State * V) :=
  '((vars, last_state), ys) <-
     nnx_scan_traced same_vars_carry_type (scan_step_vars self all_steps)
                     input_in_axis num_steps (vars, first_state) input ;;
  let states := stack_outputs all_steps (shape first_state) ys in
  if all_steps
  then if (num_steps <? 0)%Z
       then Err (NegativeLengthError num_steps)
       else match states with
            | Some states =>
                traj <- concatenate0 (expand_dims0 first_state) states ;;
                Ok (traj, vars)
            | None => Err (ConcatenateError (1 :: shape first_state) [])
            end
  else Ok (last_state, vars).

(** The engine as it behaves while its variables have the values
    [vars]. *)
Definition freeze (self : StatefulCA) (vars : V) : CA F :=
  mkCA (fun state => fst (perceive_vars self vars state))
       (fun state perception input =>
          fst (update_vars self vars state perception input)).

(** Sub-units that read their variables and never write them. *)
Definition reads_only (self : StatefulCA) : Prop :=
  (forall vars state, snd (perceive_vars self vars state) = vars) /\
  (forall vars state perception input,
     snd (update_vars self vars state perception input) = vars).

(** [class UnsupervisedCA(CA)], the encoder holding variables too. *)
Record StatefulUnsupervisedCA : Type := mkStatefulUnsupervisedCA {
  as_StatefulCA : StatefulCA;
  encoder_vars : V -> Array F -> (Array F * Array F) * V
}.

Definition freeze_unsupervised (self : StatefulUnsupervisedCA) (vars : V)
  : UnsupervisedCA F :=
  mkUnsupervisedCA (freeze (as_StatefulCA self) vars)
                   (fun target => fst (encoder_vars self vars target)).

Definition encoder_reads_only (self : StatefulUnsupervisedCA) : Prop :=
  forall vars target, snd (encoder_vars self vars target) = vars.

End StatefulEngine.

Arguments StatefulCA F V : clear implicits.
Arguments StatefulUnsupervisedCA F V : clear implicits.

Section StatefulEncode.

Context {F V Key : Type}.

Variables (add mul : F -> F -> F) (exp : F -> F) (half : F).
Variable normal_sample : Key -> Shape -> nat -> F.

(** [UnsupervisedCA.encode]: the encoding, and the variables after the
    call of the encoder. *)
Definition encode_vars (self : StatefulUnsupervisedCA F V) (vars : V)
  (target : Array F) (key : Key) : Result (Array F * V) :=
  let '((mean, logvar), vars) := encoder_vars self vars target in
  noise_std <-
    elementwise mul (random_normal normal_sample key (shape mean))
                (pointwise exp (pointwise (mul half) logvar)) ;;
  target_enc <- elementwise add mean noise_std ;;
  Ok (target_enc, vars).

End StatefulEncode.

Module DemoVars.

Local Open Scope Z_scope.

(** The engine holds one variable, an amount; the update adds it to
    every cell and leaves it as it is. *)
Definition adding : StatefulCA Z Z :=
  mkStatefulCA (fun amount s => (s, amount))
               (fun amount s _ _ => (pointwise (fun v => v + amount) s, amount)).

(** The engine holds a counter; the update adds it to every cell and
    increments it. *)
Definition counting : StatefulCA Z Z :=
  mkStatefulCA (fun count s => (s, count))
               (fun count s _ _ =>
                  (pointwise (fun v => v + count) s, count + 1)).

(** An encoder that returns the target twice and leaves the amount. *)
Definition adding_twin : StatefulUnsupervisedCA Z Z :=
  mkStatefulUnsupervisedCA adding (fun amount t => ((t, t), amount)).

Definition cell : Array Z := mkArray [1]%nat [0].

End DemoVars.

(* ================================================================== *)
(** * Properties *)

(** ** Shapes and blocks *)

Lemma shape_eqb_refl (sh : Shape) : shape_eqb sh sh = true.
Proof.
  induction sh as [|d sh IH]; simpl; [reflexivity|].
  now rewrite Nat.eqb_refl, IH.
Qed.

Lemma shape_eqb_eq (a b : Shape) : shape_eqb a b = true <-> a = b.
Proof.
  split; [|intros ->; apply shape_eqb_refl].
  revert b; induction a as [|x a IH]; intros [|y b]; simpl; try discriminate.
  - reflexivity.
  - intros H. apply andb_prop in H as [Hxy Hab].
    apply Nat.eqb_eq in Hxy. f_equal; auto.
Qed.

Lemma size_app (a b : Shape) : size (a ++ b) = size a * size b.
Proof.
  induction a as [|x a IH]; simpl; [lia|].
  rewrite IH. lia.
Qed.

Lemma shape_split (k : nat) (sh : Shape) :
  k < length sh -> sh = firstn k sh ++ extent k sh :: skipn (S k) sh.
Proof.
  revert sh; induction k as [|k IH]; intros [|d sh] Hk; simpl in *; try lia.
  - reflexivity.
  - f_equal. apply IH. lia.
Qed.

Lemma size_split (k : nat) (sh : Shape) :
  k < length sh -> size sh = outer k sh * extent k sh * inner k sh.
Proof.
  intros Hk. rewrite (shape_split sh Hk) at 1.
  rewrite size_app. unfold outer, inner. simpl. lia.
Qed.

Lemma size_drop_axis (k : nat) (sh : Shape) :
  size (drop_axis k sh) = outer k sh * inner k sh.
Proof. unfold drop_axis. now rewrite size_app. Qed.

Section BlockLemmas.

Context {F : Type}.

Lemma block_length (off len : nat) (l : list F) :
  off + len <= length l -> length (block off len l) = len.
Proof.
  intros H. unfold block. rewrite length_firstn, length_skipn. lia.
Qed.

Lemma block_all (l : list F) : block 0 (length l) l = l.
Proof. unfold block. simpl. apply firstn_all. Qed.

Lemma block_app_left (len : nat) (l r : list F) :
  length l = len -> block 0 len (l ++ r) = l.
Proof.
  intros <-. unfold block. simpl.
  rewrite firstn_app, Nat.sub_diag, firstn_all. simpl. apply app_nil_r.
Qed.

Lemma block_app_right (off len : nat) (l r : list F) :
  block (length l + off) len (l ++ r) = block off len r.
Proof.
  unfold block. rewrite skipn_app.
  replace (length l + off - length l) with off by lia.
  rewrite (skipn_all2 l) by lia. reflexivity.
Qed.

(** In a concatenation of pieces of one length, the block at a multiple
    of that length is one of the pieces. *)
Lemma block_concat (len : nat) (ls : list (list F)) (i : nat) :
  Forall (fun l => length l = len) ls ->
  i < length ls ->
  block (i * len) len (concat ls) = nth i ls [].
Proof.
  intros Hall. revert i.
  induction Hall as [|l ls Hl Hls IH]; intros i Hi; simpl in *; [lia|].
  destruct i as [|i].
  - simpl. now apply block_app_left.
  - replace (S i * len) with (length l + i * len) by (simpl; lia).
    rewrite block_app_right. apply IH. lia.
Qed.

Lemma length_concat_uniform (len : nat) (ls : list (list F)) :
  Forall (fun l => length l = len) ls ->
  length (concat ls) = length ls * len.
Proof.
  induction 1 as [|l ls Hl Hls IH]; simpl; [reflexivity|].
  rewrite length_app, IH, Hl. reflexivity.
Qed.

End BlockLemmas.

(** ** Slices along an axis *)

Section AxisLemmas.

Context {F : Type}.

Implicit Types t : Array F.

Lemma axis_slice_length (k i : nat) t :
  k < rank t -> well_formed t -> i < extent k (shape t) ->
  length (axis_slice k i t) = outer k (shape t) * inner k (shape t).
Proof.
  intros Hk Hwf Hi. unfold axis_slice.
  rewrite (@length_concat_uniform F (inner k (shape t))).
  - now rewrite length_map, length_seq.
  - apply Forall_map, Forall_forall. intros o Ho.
    apply in_seq in Ho. apply block_length.
    rewrite Hwf, (size_split (shape t) Hk).
    assert (Hle : o * extent k (shape t) + i + 1
                  <= outer k (shape t) * extent k (shape t)) by nia.
    apply (Nat.mul_le_mono_r _ _ (inner k (shape t))) in Hle. lia.
Qed.

(** Once axis [k] is in front, indexing the leading axis gives the
    slices along axis [k]. *)
Lemma index0_moveaxis0 (k i : nat) t :
  k < rank t -> well_formed t -> i < extent k (shape t) ->
  index0 i (moveaxis0 k t) = take k i t.
Proof.
  intros Hk Hwf Hi. unfold index0, moveaxis0, take. simpl. f_equal.
  rewrite block_concat.
  - rewrite (nth_indep _ [] (axis_slice k 0 t))
      by now rewrite length_map, length_seq.
    rewrite (map_nth (fun j => axis_slice k j t) (seq 0 (extent k (shape t))) 0).
    now rewrite seq_nth.
  - apply Forall_map, Forall_forall. intros j Hj. apply in_seq in Hj.
    rewrite size_drop_axis. apply axis_slice_length; auto; lia.
  - now rewrite length_map, length_seq.
Qed.

Lemma take_well_formed (k i : nat) t :
  k < rank t -> well_formed t -> i < extent k (shape t) ->
  well_formed (take k i t).
Proof.
  intros Hk Hwf Hi. unfold well_formed, take. simpl.
  rewrite size_drop_axis. now apply axis_slice_length.
Qed.

Lemma canonicalize_axis_in_range (axis : Z) (rk : nat) :
  axis_in_range axis rk = true ->
  canonicalize_axis axis rk = Ok (axis_index axis rk) /\ axis_index axis rk < rk.
Proof.
  intros H. unfold canonicalize_axis. rewrite H. split; [reflexivity|].
  unfold axis_in_range in H. apply andb_prop in H as [Hlo Hhi].
  apply Z.leb_le in Hlo. apply Z.ltb_lt in Hhi.
  unfold axis_index. destruct (axis <? 0)%Z eqn:Hneg.
  - apply Z.ltb_lt in Hneg. lia.
  - apply Z.ltb_ge in Hneg. lia.
Qed.

Lemma canonicalize_axis_out_of_range (axis : Z) (rk : nat) :
  axis_in_range axis rk = false ->
  canonicalize_axis axis rk = Err (AxisError axis rk).
Proof. intros H. unfold canonicalize_axis. now rewrite H. Qed.

End AxisLemmas.

(** ** The scan *)

Section ScanLemmas.

Context {F : Type}.

Implicit Types (x input : option (Array F)) (n : nat).

(** With no [in_axis] every iteration receives the argument itself. *)
Lemma scan_inputs_broadcast n input :
  scan_inputs None n input = Ok (repeat input n).
Proof. destruct input; reflexivity. Qed.

(** An absent argument is absent at every iteration, whatever [in_axis]. *)
Lemma scan_inputs_absent (in_axis : option Z) n :
  scan_inputs in_axis n (@None (Array F)) = Ok (repeat None n).
Proof. reflexivity. Qed.

Lemma map_ext_seq {A : Type} (f g : nat -> A) (a n : nat) :
  (forall i, a <= i < a + n -> f i = g i) ->
  map f (seq a n) = map g (seq a n).
Proof.
  intros H. apply map_ext_in. intros i Hi. apply in_seq in Hi. now apply H.
Qed.

Lemma repeat_as_map {A : Type} (v : A) (a n : nat) :
  repeat v n = map (fun _ => v) (seq a n).
Proof.
  revert a; induction n as [|n IH]; intros a; simpl; [reflexivity|].
  now rewrite <- IH.
Qed.

(** With [in_axis] set and an extent equal to the length, iteration [i]
    receives slice [i] along that axis. *)
Lemma scan_inputs_sliced (axis : Z) n (t : Array F) :
  well_formed t ->
  axis_in_range axis (rank t) = true ->
  extent (axis_index axis (rank t)) (shape t) = n ->
  scan_inputs (Some axis) n (Some t) =
  Ok (map (fun i => Some (take (axis_index axis (rank t)) i t)) (seq 0 n)).
Proof.
  intros Hwf Hax Hn. unfold scan_inputs.
  destruct (canonicalize_axis_in_range _ _ Hax) as [-> Hk]. simpl.
  rewrite Hn, Nat.eqb_refl. f_equal.
  apply map_ext_seq. intros i Hi. f_equal.
  apply index0_moveaxis0; auto; lia.
Qed.

(** Any other extent makes the scan fail before its first iteration. *)
Lemma scan_inputs_mismatch (axis : Z) n (t : Array F) :
  axis_in_range axis (rank t) = true ->
  extent (axis_index axis (rank t)) (shape t) <> n ->
  scan_inputs (Some axis) n (Some t) =
  Err (ScanLengthError n (extent (axis_index axis (rank t)) (shape t))).
Proof.
  intros Hax Hn. unfold scan_inputs.
  destruct (canonicalize_axis_in_range _ _ Hax) as [-> Hk]. simpl.
  apply Nat.eqb_neq in Hn. now rewrite Hn.
Qed.

Lemma scan_inputs_fits input (in_axis : option Z) n :
  input_fits input in_axis n ->
  scan_inputs in_axis n input = Ok (input_slices input in_axis n).
Proof.
  unfold input_fits, input_slices, input_slice.
  destruct input as [t|], in_axis as [axis|]; simpl.
  - intros (Hwf & Hax & Hn). now apply scan_inputs_sliced.
  - intros _. f_equal. apply repeat_as_map.
  - intros _. f_equal. apply repeat_as_map.
  - intros _. f_equal. apply repeat_as_map.
Qed.

End ScanLemmas.

(** ** The engine *)

Section EngineLemmas.

Context {F : Type}.

Implicit Types (self ca : CA F) (s : Array F) (x input : option (Array F)).
Implicit Types (xs : list (option (Array F))) (all_steps : bool).

Lemma keeps_state_type_step ca s x :
  keeps_state_type ca -> well_formed s ->
  well_formed (step ca s x) /\ shape (step ca s x) = shape s.
Proof. intros H Hs. now apply H. Qed.

(** One iteration of the scanned body. *)
Lemma scan_loop_cons all_steps ca s x xs :
  scan_loop same_carry_type (scan_step all_steps) (ca, s) (x :: xs) =
  if shape_eqb (shape s) (shape (step ca s x))
  then '(final, ys) <-
         scan_loop same_carry_type (scan_step all_steps) (ca, step ca s x) xs ;;
       Ok (final, (if all_steps then Some (step ca s x) else None) :: ys)
  else Err CarryTypeError.
Proof. reflexivity. Qed.

(** The engine in the carry is handed on untouched. *)
Lemma scan_loop_engine all_steps ca s xs c ys :
  scan_loop same_carry_type (scan_step all_steps) (ca, s) xs = Ok (c, ys) ->
  fst c = ca.
Proof.
  revert s c ys. induction xs as [|x xs IH]; intros s c ys H.
  - simpl in H. now inversion H.
  - rewrite scan_loop_cons in H.
    destruct (shape_eqb _ _); [|discriminate].
    destruct (scan_loop _ _ (ca, step ca s x) xs) as [[c' ys']|e] eqn:Hrec;
      simpl in H; [|discriminate].
    inversion H; subst. eapply IH; eauto.
Qed.

(** With sub-units that keep the state's shape, the scan goes through
    and yields the iterated transitions. *)
Lemma scan_loop_ok all_steps ca s xs :
  keeps_state_type ca -> well_formed s ->
  scan_loop same_carry_type (scan_step all_steps) (ca, s) xs =
  Ok ((ca, iterate_steps ca s xs),
      map (fun t => if all_steps then Some t else None) (states_after ca s xs)).
Proof.
  intros Hca. revert s. induction xs as [|x xs IH]; intros s Hs.
  - reflexivity.
  - rewrite scan_loop_cons.
    destruct (keeps_state_type_step x Hca Hs) as [Hwf Hsh].
    rewrite Hsh, shape_eqb_refl, (IH _ Hwf). reflexivity.
Qed.

Lemma states_after_length ca s xs : length (states_after ca s xs) = length xs.
Proof.
  revert s; induction xs as [|x xs IH]; intros s; simpl; [reflexivity|].
  now rewrite IH.
Qed.

Lemma states_after_typed ca s xs :
  keeps_state_type ca -> well_formed s ->
  Forall (fun t => well_formed t /\ shape t = shape s) (states_after ca s xs).
Proof.
  intros Hca. revert s. induction xs as [|x xs IH]; intros s Hs; simpl.
  - constructor.
  - destruct (keeps_state_type_step x Hca Hs) as [Hwf Hsh].
    constructor; [now split|].
    rewrite <- Hsh. now apply IH.
Qed.

(** Entry [i] of the initial state followed by the later states is the
    state after the first [i] transitions. *)
Lemma nth_states_after ca s xs i :
  i <= length xs ->
  nth i (s :: states_after ca s xs) s = iterate_steps ca s (firstn i xs).
Proof.
  revert s i. induction xs as [|x xs IH]; intros s [|i] Hi; simpl in *;
    try reflexivity; try lia.
  rewrite <- (IH (step ca s x) i) by lia.
  destruct i; simpl; [reflexivity|].
  apply nth_indep. rewrite states_after_length. lia.
Qed.

Lemma flat_map_some (ts : list (Array F)) :
  flat_map (fun y : option (Array F) =>
              match y with Some t => [t] | None => [] end)
           (map (fun t => Some t) ts) = ts.
Proof. induction ts as [|t ts IH]; simpl; [reflexivity|now rewrite IH]. Qed.

Lemma concatenate0_stack s (ts : list (Array F)) :
  concatenate0 (expand_dims0 s) (stack (shape s) ts) =
  Ok (mkArray (S (length ts) :: shape s) (concat (map data (s :: ts)))).
Proof.
  unfold concatenate0, expand_dims0, stack. simpl.
  now rewrite shape_eqb_refl.
Qed.

(** The result of a run, given what each transition receives. *)
Lemma run_ok ca s input n all_steps (axis : option Z) xs :
  keeps_state_type ca -> well_formed s ->
  scan_inputs axis n input = Ok xs ->
  run ca s input n all_steps axis =
  if all_steps
  then Ok (mkArray (S (length xs) :: shape s)
                   (concat (map data (s :: states_after ca s xs))))
  else Ok (iterate_steps ca s xs).
Proof.
  intros Hca Hs Hxs. unfold run, nnx_scan. rewrite Hxs. simpl.
  rewrite (scan_loop_ok all_steps xs Hca Hs). simpl.
  destruct all_steps; [|reflexivity].
  unfold stack_outputs. rewrite flat_map_some, concatenate0_stack.
  now rewrite states_after_length.
Qed.

(** Indexing a stacked list of equally shaped arrays. *)
Lemma index0_stacked (sh : Shape) (ts : list (Array F)) (d : Array F) i :
  Forall (fun t => well_formed t /\ shape t = sh) ts ->
  i < length ts ->
  index0 i (mkArray (length ts :: sh) (concat (map data ts))) = nth i ts d.
Proof.
  intros Hts Hi. unfold index0. simpl.
  rewrite block_concat.
  - rewrite (nth_indep _ [] (data d)) by now rewrite length_map.
    rewrite map_nth.
    assert (Hin : In (nth i ts d) ts) by now apply nth_In.
    rewrite Forall_forall in Hts. destruct (Hts _ Hin) as [_ Hsh].
    rewrite <- Hsh. now destruct (nth i ts d).
  - apply Forall_map. eapply Forall_impl; [|exact Hts].
    intros t [Hwf Hsh]. now rewrite <- Hsh.
  - now rewrite length_map.
Qed.

End EngineLemmas.

(* ================================================================== *)
(** * The claims *)

Section EngineClaims.

Context {F : Type}.

Implicit Types (self : CA F) (s : Array F) (input : option (Array F)).

Lemma run_last_nil self s input : run self s input 0 false None = Ok s.
Proof. unfold run, nnx_scan. now rewrite scan_inputs_broadcast. Qed.

(** The final state of a run that keeps only it, one transition at a
    time. *)
Lemma run_last_cons self s input (n : nat) :
  run self s input (S n) false None =
  if shape_eqb (shape s) (shape (step self s input))
  then run self (step self s input) input n false None
  else Err CarryTypeError.
Proof.
  unfold run, nnx_scan. rewrite !scan_inputs_broadcast. simpl repeat.
  cbn [bind]. rewrite scan_loop_cons.
  destruct (shape_eqb _ _); [|reflexivity].
  destruct (scan_loop _ _ _ _) as [[[c last] ys]|e]; reflexivity.
Qed.

(** C3.  With a constant or absent input, running [a + b] steps is
    running [a] steps and then [b] steps from the state reached; a
    failure of the first part is the failure of the whole. *)
Theorem run_compose self s input (a b : nat) :
  run self s input (a + b) false None =
  (s' <- run self s input a false None ;; run self s' input b false None).
Proof.
  revert s. induction a as [|a IH]; intros s.
  - now rewrite run_last_nil.
  - simpl Nat.add. rewrite !run_last_cons.
    destruct (shape_eqb _ _); [apply IH | reflexivity].
Qed.

(** C4.  A provided input without [input_in_axis] reaches every one of
    the [n] transitions unchanged; with [input_in_axis] set (and an
    extent of [n] along it), transition [i] receives slice [i] of the
    input along that axis.  Both are stated for what the scan hands to
    its body and for the state the run ends in. *)
Theorem run_input_per_step self s (t : Array F) (n : nat) (axis : Z) :
  keeps_state_type self -> well_formed s ->
  (scan_inputs None n (Some t) = Ok (repeat (Some t) n) /\
   run self s (Some t) n false None =
   Ok (iterate_steps self s (repeat (Some t) n))) /\
  (input_fits (Some t) (Some axis) n ->
   let slice i := Some (take (axis_index axis (rank t)) i t) in
   scan_inputs (Some axis) n (Some t) = Ok (map slice (seq 0 n)) /\
   run self s (Some t) n false (Some axis) =
   Ok (iterate_steps self s (map slice (seq 0 n)))).
Proof.
  intros Hca Hs. split.
  - split; [reflexivity|].
    now rewrite run_ok with (xs := repeat (Some t) n) by auto.
  - intros Hfit slice.
    pose proof (scan_inputs_fits _ _ _ Hfit) as Hxs.
    split; [exact Hxs|].
    now rewrite run_ok with (xs := map slice (seq 0 n)) by auto.
Qed.

(** C5.  With [input_in_axis] set and an input whose extent along that
    axis is smaller than [num_steps], [run] fails: the scan rejects the
    length before any transition, and no slice is dropped or reused. *)
Theorem run_short_input_fails self s (t : Array F) (n : nat)
  (all_steps : bool) (axis : Z) :
  axis_in_range axis (rank t) = true ->
  extent (axis_index axis (rank t)) (shape t) < n ->
  run self s (Some t) n all_steps (Some axis) =
  Err (ScanLengthError n (extent (axis_index axis (rank t)) (shape t))).
Proof.
  intros Hax Hlt. unfold run, nnx_scan.
  rewrite scan_inputs_mismatch by (auto; lia). reflexivity.
Qed.

(** C6.  A transition is the update unit applied to the current state,
    the perception of that state, and the input. *)
Theorem step_is_update_of_perception self s input :
  step self s input = update self s (perceive self s) input.
Proof. reflexivity. Qed.

End EngineClaims.

(** ** Broadcasting *)

Lemma broadcast_rev_refl (a : Shape) : broadcast_rev a a = Some a.
Proof.
  induction a as [|x a IH]; simpl; [reflexivity|].
  now rewrite Nat.eqb_refl, IH.
Qed.

(** A shape broadcasts with whatever it was broadcast to, without
    changing it. *)
Lemma broadcast_rev_absorb (a b c : Shape) :
  broadcast_rev a b = Some c -> broadcast_rev a c = Some c.
Proof.
  revert b c. induction a as [|x a IH]; intros b c H.
  - now destruct c.
  - destruct b as [|y b].
    + inversion H; subst. apply broadcast_rev_refl.
    + simpl in H.
      destruct (x =? y) eqn:Hxy;
        [|destruct (x =? 1) eqn:Hx1; [|destruct (y =? 1); [|discriminate]]];
        destruct (broadcast_rev a b) as [c'|] eqn:Hab; try discriminate;
        inversion H; subst; simpl.
      * now rewrite Nat.eqb_refl, (IH _ _ Hab).
      * now rewrite Hxy, Hx1, (IH _ _ Hab).
      * now rewrite Nat.eqb_refl, (IH _ _ Hab).
Qed.

Lemma broadcast_shapes_refl (a : Shape) : broadcast_shapes a a = Some a.
Proof.
  unfold broadcast_shapes. rewrite broadcast_rev_refl. simpl.
  now rewrite rev_involutive.
Qed.

Lemma broadcast_shapes_absorb (a b c : Shape) :
  broadcast_shapes a b = Some c -> broadcast_shapes a c = Some c.
Proof.
  unfold broadcast_shapes. intros H.
  destruct (broadcast_rev (rev a) (rev b)) as [c'|] eqn:Hab; [|discriminate].
  inversion H; subst. rewrite rev_involutive.
  now rewrite (broadcast_rev_absorb _ _ Hab).
Qed.

Lemma size_rev (sh : Shape) : size (rev sh) = size sh.
Proof.
  induction sh as [|d sh IH]; simpl; [reflexivity|].
  rewrite size_app, IH. simpl. lia.
Qed.

(** Broadcasting to the array's own shape moves nothing. *)
Lemma source_offset_same (sh : Shape) (j : nat) :
  j < size sh -> source_offset sh sh j = j.
Proof.
  revert j. induction sh as [|d sh IH]; intros j Hj; simpl in *; [lia|].
  assert (Hd : d <> 0) by (intros ->; simpl in Hj; lia).
  rewrite IH by (apply Nat.Div0.div_lt_upper_bound; lia).
  destruct (d =? 1) eqn:Hd1.
  - apply Nat.eqb_eq in Hd1. subst. rewrite Nat.div_1_r. lia.
  - pose proof (Nat.div_mod_eq j d). lia.
Qed.

Section ElementwiseLemmas.

Context {F : Type}.

Implicit Types (t a b : Array F) (l r : list F).

Lemma flat_map_nth_error l :
  flat_map (fun j => match nth_error l j with Some v => [v] | None => [] end)
           (seq 0 (length l)) = l.
Proof.
  induction l as [|v l IH]; [reflexivity|].
  cbn [length seq flat_map nth_error app]. f_equal.
  rewrite <- seq_shift, flat_map_concat_map, map_map.
  rewrite <- flat_map_concat_map. exact IH.
Qed.

Lemma broadcast_to_same t : well_formed t -> broadcast_to t (shape t) = t.
Proof.
  intros Hwf. unfold broadcast_to. destruct t as [sh l]. simpl in *.
  f_equal. unfold well_formed in Hwf. simpl in Hwf.
  rewrite flat_map_concat_map.
  rewrite (map_ext_in _
             (fun j => match nth_error l j with Some v => [v] | None => [] end)).
  - rewrite <- flat_map_concat_map, <- Hwf. apply flat_map_nth_error.
  - intros j Hj. apply in_seq in Hj.
    rewrite source_offset_same; [reflexivity|]. rewrite size_rev. lia.
Qed.

Lemma zip_with_length (f : F -> F -> F) l r :
  length l = length r -> length (zip_with f l r) = length l.
Proof.
  revert r. induction l as [|x l IH]; intros [|y r] H; simpl in *;
    try reflexivity; try discriminate.
  now rewrite IH by lia.
Qed.

Lemma zip_with_nth_error (f : F -> F -> F) l r j x y :
  nth_error l j = Some x -> nth_error r j = Some y ->
  nth_error (zip_with f l r) j = Some (f x y).
Proof.
  revert r j. induction l as [|x' l IH]; intros [|y' r] [|j] Hl Hr;
    simpl in *; try discriminate.
  - now inversion Hl; inversion Hr.
  - now apply IH.
Qed.

(** On two arrays of one shape an elementwise operation works element
    by element. *)
Lemma elementwise_same_shape (f : F -> F -> F) a b :
  well_formed a -> well_formed b -> shape a = shape b ->
  elementwise f a b = Ok (mkArray (shape a) (zip_with f (data a) (data b))).
Proof.
  intros Ha Hb Hsh. unfold elementwise.
  rewrite <- Hsh, broadcast_shapes_refl.
  rewrite (broadcast_to_same Ha).
  rewrite Hsh at 2. now rewrite (broadcast_to_same Hb).
Qed.

Lemma elementwise_is_ok (f : F -> F -> F) a b :
  is_ok (elementwise f a b) =
  match broadcast_shapes (shape a) (shape b) with
  | Some _ => true
  | None => false
  end.
Proof. unfold elementwise. now destruct (broadcast_shapes _ _). Qed.

Lemma elementwise_shape (f : F -> F -> F) a b c :
  elementwise f a b = Ok c -> broadcast_shapes (shape a) (shape b) = Some (shape c).
Proof.
  unfold elementwise. destruct (broadcast_shapes _ _); [|discriminate].
  intros H. now inversion H.
Qed.

Lemma pointwise_well_formed (g : F -> F) a :
  well_formed a -> well_formed (pointwise g a).
Proof. unfold well_formed, pointwise. simpl. now rewrite length_map. Qed.

End ElementwiseLemmas.

(** ** The encoding *)

Section EncodeClaims.

Context {F Key : Type}.

Variables (add mul : F -> F -> F) (exp : F -> F) (half : F).
Variable normal_sample : Key -> Shape -> nat -> F.

Local Abbreviation encode' := (encode add mul exp half normal_sample).
Local Abbreviation normal := (random_normal normal_sample).

Lemma random_normal_well_formed (key : Key) (sh : Shape) :
  well_formed (normal key sh).
Proof.
  unfold well_formed, random_normal. simpl.
  now rewrite length_map, length_seq.
Qed.

Lemma random_normal_nth (key : Key) (sh : Shape) (j : nat) :
  j < size sh ->
  nth_error (data (normal key sh)) j = Some (normal_sample key sh j).
Proof.
  intros Hj. unfold random_normal. simpl.
  rewrite nth_error_map, nth_error_seq.
  apply Nat.ltb_lt in Hj. now rewrite Hj.
Qed.

Lemma encode_unfold (u : UnsupervisedCA F) (target : Array F) (key : Key) :
  encode' u target key =
  (noise_std <-
     elementwise mul (normal key (shape (fst (encoder u target))))
       (pointwise exp (pointwise (mul half) (snd (encoder u target)))) ;;
   elementwise add (fst (encoder u target)) noise_std).
Proof.
  unfold encode. destruct (encoder u target) as [mean logvar]. simpl.
  destruct (elementwise mul _ _) as [ns|e]; simpl; [|reflexivity].
  now destruct (elementwise add mean ns).
Qed.

(** C7.  [encode] returns [mean + noise * exp(0.5 * logvar)], where
    [(mean, logvar)] is the encoder's output on the target and [noise] is
    the array of the shape of [mean] drawn from the key.  When [mean] and
    [logvar] have one shape, the result has that shape and its element
    [j] is [mean_j + noise_j * exp(0.5 * logvar_j)]. *)
Theorem encode_reparameterization (u : UnsupervisedCA F) (target : Array F)
  (key : Key) :
  let mean := fst (encoder u target) in
  let logvar := snd (encoder u target) in
  let noise := normal key (shape mean) in
  let std := pointwise exp (pointwise (mul half) logvar) in
  (shape noise = shape mean /\ well_formed noise) /\
  encode' u target key =
    (noise_std <- elementwise mul noise std ;; elementwise add mean noise_std) /\
  (well_formed mean -> well_formed logvar -> shape logvar = shape mean ->
   exists enc,
     encode' u target key = Ok enc /\
     shape enc = shape mean /\
     forall j m v,
       nth_error (data mean) j = Some m ->
       nth_error (data logvar) j = Some v ->
       nth_error (data enc) j =
       Some (add m (mul (normal_sample key (shape mean) j) (exp (mul half v))))).
Proof.
  intros mean logvar noise std.
  split; [split; [reflexivity | apply random_normal_well_formed]|].
  split; [apply encode_unfold|].
  intros Hm Hl Hsh. rewrite encode_unfold. fold mean logvar noise std.
  assert (Hnoise : well_formed noise) by apply random_normal_well_formed.
  assert (Hstd : well_formed std) by now repeat apply pointwise_well_formed.
  assert (Hlen : length (data noise) = length (data std)).
  { rewrite Hnoise, Hstd. unfold std, noise. simpl. now rewrite Hsh. }
  rewrite (elementwise_same_shape mul Hnoise Hstd)
    by (unfold std, noise; simpl; congruence).
  cbn [bind].
  rewrite elementwise_same_shape; try assumption; try reflexivity.
  - eexists. split; [reflexivity|]. split; [reflexivity|].
    intros j m v Hjm Hjv. simpl.
    apply zip_with_nth_error; [exact Hjm|].
    apply zip_with_nth_error.
    + apply random_normal_nth. rewrite <- Hm.
      apply nth_error_Some. congruence.
    + unfold std, pointwise. simpl.
      rewrite map_map, nth_error_map, Hjv. reflexivity.
  - unfold well_formed. simpl. rewrite zip_with_length by exact Hlen.
    exact Hnoise.
Qed.

(** C8 (as amended).  [encode] fails exactly when the shapes of the
    encoder's mean and log-variance cannot be broadcast together; shapes
    that differ but broadcast give a result, of the broadcast shape. *)
Theorem encode_fails_iff_not_broadcastable (u : UnsupervisedCA F)
  (target : Array F) (key : Key) :
  let mean := fst (encoder u target) in
  let logvar := snd (encoder u target) in
  match broadcast_shapes (shape mean) (shape logvar) with
  | Some sh =>
      exists enc, encode' u target key = Ok enc /\ shape enc = sh
  | None =>
      encode' u target key = Err (BroadcastError (shape mean) (shape logvar))
  end.
Proof.
  intros mean logvar. rewrite encode_unfold. fold mean logvar.
  unfold elementwise, random_normal, pointwise. cbn [shape].
  destruct (broadcast_shapes (shape mean) (shape logvar)) as [sh|] eqn:Hb;
    cbn [bind shape]; [|reflexivity].
  rewrite (broadcast_shapes_absorb _ _ Hb).
  eexists. split; reflexivity.
Qed.

End EncodeClaims.

(* ================================================================== *)
(** * Concrete runs *)

Module DemoFacts.

Import Demo.

Lemma pointwise_keeps_state_type (perc : Array Z -> Array Z)
  (g : option (Array Z) -> Z -> Z) :
  keeps_state_type (mkCA perc (fun s _ x => pointwise (g x) s)).
Proof.
  intros s x Hs. split; [|reflexivity].
  unfold step. simpl. now apply pointwise_well_formed.
Qed.

Lemma incr_keeps_state_type : keeps_state_type incr.
Proof. exact (pointwise_keeps_state_type _ (fun _ v => (v + 1)%Z)). Qed.

Lemma add_input_keeps_state_type : keeps_state_type add_input.
Proof.
  exact (pointwise_keeps_state_type _
           (fun x v => (v + hd 0 (match x with
                                  | Some t => data t
                                  | None => []
                                  end))%Z)).
Qed.

(** Three increments of the all-zero grid give the all-three grid, and
    with [all_steps] the four grids 0, 1, 2, 3. *)
Example incr_three_steps :
  run incr zeros None 3 false None = Ok (mkArray [4; 4; 1] (repeat 3%Z 16)) /\
  run incr zeros None 3 true None =
  Ok (mkArray [4; 4; 4; 1]
        (repeat 0%Z 16 ++ repeat 1%Z 16 ++ repeat 2%Z 16 ++ repeat 3%Z 16)).
Proof. split; reflexivity. Qed.

(** A transition that changes the state's shape stops the scan. *)
Example grow_is_rejected :
  run grow zeros None 2 false None = Err CarryTypeError.
Proof. reflexivity. Qed.

(** Per-step inputs 5, 7, 9 along axis 0 are added in that order. *)
Example add_input_three_steps :
  run add_input (mkArray [1] [0%Z]) (Some three_inputs) 3 true (Some 0%Z) =
  Ok (mkArray [4; 1] [0; 5; 12; 21]%Z).
Proof. reflexivity. Qed.

(** Shapes [(2,)] and [(3,)] cannot be combined. *)
Example clashing_is_rejected :
  encode Z.add Z.mul pow2 1%Z sample clashing vec2 100%Z
  = Err (BroadcastError [2] [3]).
Proof. reflexivity. Qed.

End DemoFacts.

Lemma run_input_per_step_witness :
  keeps_state_type Demo.add_input /\ well_formed Demo.zeros /\
  input_fits (Some Demo.three_inputs) (Some 0%Z) 3 /\
  run Demo.add_input Demo.zeros (Some Demo.three_inputs) 3 false None
  = Ok (iterate_steps Demo.add_input Demo.zeros
          (repeat (Some Demo.three_inputs) 3)) /\
  run Demo.add_input Demo.zeros (Some Demo.three_inputs) 3 false (Some 0%Z)
  = Ok (iterate_steps Demo.add_input Demo.zeros
          (map (fun i => Some (take 0 i Demo.three_inputs)) (seq 0 3))).
Proof.
  assert (Hfit : input_fits (Some Demo.three_inputs) (Some 0%Z) 3)
    by (simpl; repeat split; reflexivity).
  assert (Hs : well_formed Demo.zeros) by reflexivity.
  destruct (@run_input_per_step Z Demo.add_input Demo.zeros
              Demo.three_inputs 3 0%Z
              DemoFacts.add_input_keeps_state_type Hs)
    as [[_ Hconst] Hsliced].
  destruct (Hsliced Hfit) as [_ Hrun].
  split; [apply DemoFacts.add_input_keeps_state_type|].
  split; [exact Hs|]. split; [exact Hfit|].
  split; [exact Hconst | exact Hrun].
Defined.

Lemma run_short_input_fails_witness :
  axis_in_range 0%Z (rank Demo.two_inputs) = true /\
  extent (axis_index 0%Z (rank Demo.two_inputs)) (shape Demo.two_inputs) < 3 /\
  run Demo.add_input Demo.zeros (Some Demo.two_inputs) 3 false (Some 0%Z)
  = Err (ScanLengthError 3 2).
Proof.
  split; [reflexivity|]. split; [vm_compute; lia|].
  apply (@run_short_input_fails Z Demo.add_input Demo.zeros Demo.two_inputs
           3 false 0%Z); [reflexivity | vm_compute; lia].
Defined.

(** C8, counterexample.  The encoder returns a mean of shape [(2,)] and
    a log-variance of shape [(1,)]; [encode] returns a value. *)
Lemma encode_broadcasts_shared_logvar :
  shape (fst (encoder Demo.shared_logvar Demo.vec2))
  <> shape (snd (encoder Demo.shared_logvar Demo.vec2)) /\
  encode Z.add Z.mul Demo.pow2 1%Z Demo.sample Demo.shared_logvar Demo.vec2
         100%Z
  = Ok (mkArray [2] [110; 121]%Z).
Proof. split; [discriminate | reflexivity]. Qed.

Lemma encode_reparameterization_witness :
  well_formed (fst (encoder Demo.twin Demo.vec2)) /\
  well_formed (snd (encoder Demo.twin Demo.vec2)) /\
  shape (snd (encoder Demo.twin Demo.vec2))
  = shape (fst (encoder Demo.twin Demo.vec2)) /\
  exists enc,
    encode Z.add Z.mul Demo.pow2 1%Z Demo.sample Demo.twin Demo.vec2 100%Z
    = Ok enc /\
    shape enc = [2] /\
    nth_error (data enc) 1 = Some (20 + 101 * Demo.pow2 (1 * 20))%Z.
Proof.
  assert (Hm : well_formed (fst (encoder Demo.twin Demo.vec2))) by reflexivity.
  assert (Hl : well_formed (snd (encoder Demo.twin Demo.vec2))) by reflexivity.
  split; [exact Hm|]. split; [exact Hl|]. split; [reflexivity|].
  destruct (proj2 (proj2 (@encode_reparameterization Z Z Z.add Z.mul Demo.pow2
                            1%Z Demo.sample Demo.twin Demo.vec2 100%Z))
              Hm Hl eq_refl) as [enc [Henc [Hsh Hnth]]].
  exists enc. split; [exact Henc|]. split; [exact Hsh|].
  apply (Hnth 1 20%Z 20%Z); reflexivity.
Defined.

(* ================================================================== *)
(** * Further properties of the runner *)

Section RunnerLemmas.

Context {F : Type}.

Implicit Types (self ca : CA F) (s : Array F) (x input : option (Array F)).
Implicit Types (xs : list (option (Array F))) (all_steps : bool).

(** The scan of the engine's body, in full: it goes through exactly
    when the shape is kept along the run. *)
Lemma scan_loop_result all_steps ca s xs :
  scan_loop same_carry_type (scan_step all_steps) (ca, s) xs =
  if keeps_shape_along ca s xs
  then Ok ((ca, iterate_steps ca s xs),
           map (fun t => if all_steps then Some t else None)
               (states_after ca s xs))
  else Err CarryTypeError.
Proof.
  revert s. induction xs as [|x xs IH]; intros s; [reflexivity|].
  rewrite scan_loop_cons. cbn [keeps_shape_along].
  destruct (shape_eqb _ _); [|reflexivity].
  rewrite IH. cbn [andb].
  now destruct (keeps_shape_along ca (step ca s x) xs).
Qed.

Lemma run_result ca s input (n : nat) all_steps (axis : option Z) xs :
  scan_inputs axis n input = Ok xs ->
  run ca s input n all_steps axis =
  if keeps_shape_along ca s xs
  then if all_steps
       then Ok (mkArray (S (length xs) :: shape s)
                        (concat (map data (s :: states_after ca s xs))))
       else Ok (iterate_steps ca s xs)
  else Err CarryTypeError.
Proof.
  intros Hxs. unfold run, nnx_scan. rewrite Hxs. cbn [bind].
  rewrite scan_loop_result.
  destruct (keeps_shape_along ca s xs); [|reflexivity].
  cbn [bind]. destruct all_steps; [|reflexivity].
  unfold stack_outputs. rewrite flat_map_some, concatenate0_stack.
  now rewrite states_after_length.
Qed.

Lemma run_rejected ca s input (n : nat) all_steps (axis : option Z) e :
  scan_inputs axis n input = Err e ->
  run ca s input n all_steps axis = Err e.
Proof. intros H. unfold run, nnx_scan. now rewrite H. Qed.

Lemma iterate_steps_cons ca s x xs :
  iterate_steps ca s (x :: xs) = iterate_steps ca (step ca s x) xs.
Proof. reflexivity. Qed.

Lemma iterate_steps_app ca s xs ys :
  iterate_steps ca s (xs ++ ys) = iterate_steps ca (iterate_steps ca s xs) ys.
Proof. apply fold_left_app. Qed.

(** The shape is kept along the run exactly when every state reached
    has the shape of the first. *)
Lemma keeps_shape_along_spec ca s xs :
  keeps_shape_along ca s xs = true <->
  forall i, i <= length xs ->
    shape (iterate_steps ca s (firstn i xs)) = shape s.
Proof.
  revert s. induction xs as [|x xs IH]; intros s.
  - split; [|reflexivity]. intros _ i Hi. now destruct i.
  - cbn [keeps_shape_along]. rewrite andb_true_iff, shape_eqb_eq, IH.
    split.
    + intros [Hx Hrest] [|i] Hi; [reflexivity|].
      cbn [firstn]. rewrite iterate_steps_cons.
      rewrite Hrest by (simpl in Hi; lia). now symmetry.
    + intros H.
      assert (Hx : shape (step ca s x) = shape s)
        by (apply (H 1); simpl; lia).
      split; [now symmetry|].
      intros i Hi. rewrite Hx.
      apply (H (S i)). simpl. lia.
Qed.

Lemma keeps_state_type_along ca s xs :
  keeps_state_type ca -> well_formed s -> keeps_shape_along ca s xs = true.
Proof.
  intros Hca. revert s. induction xs as [|x xs IH]; intros s Hs;
    [reflexivity|].
  cbn [keeps_shape_along].
  destruct (keeps_state_type_step x Hca Hs) as [Hwf Hsh].
  now rewrite Hsh, shape_eqb_refl, IH.
Qed.

Lemma iterate_steps_typed ca s xs :
  keeps_state_type ca -> well_formed s ->
  well_formed (iterate_steps ca s xs) /\
  shape (iterate_steps ca s xs) = shape s.
Proof.
  intros Hca. revert s. induction xs as [|x xs IH]; intros s Hs.
  - now split.
  - rewrite iterate_steps_cons.
    destruct (keeps_state_type_step x Hca Hs) as [Hwf Hsh].
    destruct (IH _ Hwf) as [Hwf' Hsh']. split; [exact Hwf'|congruence].
Qed.

Lemma input_slices_length input (axis : option Z) (n : nat) :
  length (input_slices input axis n) = n.
Proof. unfold input_slices. now rewrite length_map, length_seq. Qed.

(** The trajectory of a run, entry by entry. *)
Lemma run_trajectory_entries ca s input (n : nat) (axis : option Z) xs :
  keeps_state_type ca -> well_formed s ->
  scan_inputs axis n input = Ok xs ->
  exists traj,
    run ca s input n true axis = Ok traj /\
    shape traj = S (length xs) :: shape s /\
    well_formed traj /\
    forall i, i <= length xs ->
      index0 i traj = iterate_steps ca s (firstn i xs).
Proof.
  intros Hca Hs Hxs.
  assert (Htyped : Forall (fun t => well_formed t /\ shape t = shape s)
                          (s :: states_after ca s xs))
    by (constructor; [now split | now apply states_after_typed]).
  rewrite run_result with (xs := xs) by assumption.
  rewrite keeps_state_type_along by assumption.
  eexists. split; [reflexivity|]. split; [reflexivity|]. split.
  - unfold well_formed. cbn [data shape size fold_right].
    rewrite (@length_concat_uniform F (size (shape s))).
    + rewrite length_map. cbn [length]. now rewrite states_after_length.
    + apply Forall_map. eapply Forall_impl; [|exact Htyped].
      intros t [Hwf Hsh]. now rewrite <- Hsh.
  - intros i Hi. rewrite <- nth_states_after by lia.
    rewrite <- (states_after_length ca s xs).
    apply (index0_stacked s Htyped). simpl.
    rewrite states_after_length. lia.
Qed.

End RunnerLemmas.

Section RunnerProperties.

Context {F : Type}.

Implicit Types (self : CA F) (s : Array F) (input : option (Array F)).

(** X1.  The state returned without [all_steps] is the last entry of
    the trajectory returned with it. *)
Theorem run_final_is_last_of_trajectory self s input (n : nat)
  (axis : option Z) :
  keeps_state_type self -> well_formed s -> input_fits input axis n ->
  exists traj last,
    run self s input n true axis = Ok traj /\
    run self s input n false axis = Ok last /\
    index0 n traj = last.
Proof.
  intros Hca Hs Hfit.
  pose proof (scan_inputs_fits _ _ _ Hfit) as Hxs.
  destruct (@run_trajectory_entries F self s input n axis _ Hca Hs Hxs)
    as (traj & Htraj & _ & _ & Hnth).
  rewrite input_slices_length in Hnth.
  exists traj, (iterate_steps self s (input_slices input axis n)).
  split; [exact Htraj|]. split.
  - rewrite run_result with (xs := input_slices input axis n) by assumption.
    now rewrite keeps_state_type_along.
  - rewrite Hnth by lia.
    rewrite <- (input_slices_length input axis n) at 1.
    now rewrite firstn_all.
Qed.

(** X2.  For a number of steps that is not negative, asking for all
    steps never changes whether a run succeeds, nor the error it fails
    with: stacking the states and putting the first state in front
    cannot fail once the scan has gone through. *)
Theorem run_modes_fail_alike self s input (n : nat) (axis : option Z) :
  (traj <- run self s input n true axis ;; Ok tt) =
  (last <- run self s input n false axis ;; Ok tt).
Proof.
  destruct (scan_inputs axis n input) as [xs|e] eqn:Hxs.
  - rewrite !run_result with (xs := xs) by assumption.
    now destruct (keeps_shape_along self s xs).
  - now rewrite !run_rejected with (e := e) by assumption.
Qed.

(** X5.  A transition that returns a state of another shape than it
    was given makes the whole run fail with the scan's carry error, with
    or without [all_steps]; no partial trajectory is returned. *)
Theorem run_shape_change_fails self s input (n : nat) (all_steps : bool)
  (axis : option Z) (i : nat) :
  input_fits input axis n -> i < n ->
  shape (iterate_steps self s (firstn (S i) (input_slices input axis n)))
  <> shape (iterate_steps self s (firstn i (input_slices input axis n))) ->
  run self s input n all_steps axis = Err CarryTypeError.
Proof.
  intros Hfit Hi Hchange.
  pose proof (scan_inputs_fits _ _ _ Hfit) as Hxs.
  rewrite run_result with (xs := input_slices input axis n) by assumption.
  destruct (keeps_shape_along _ _ _) eqn:Hkept; [|reflexivity].
  exfalso. apply Hchange.
  pose proof (proj1 (keeps_shape_along_spec _ _ _) Hkept) as Hall.
  rewrite input_slices_length in Hall.
  rewrite (Hall (S i)), (Hall i) by lia. reflexivity.
Qed.

(** X6.  With [input_in_axis] naming a valid axis of a well-formed
    input, and sub-units that keep the state's shape and dtype, a run
    succeeds exactly when the input's extent along that axis is
    [num_steps]: a longer input is rejected like a shorter one. *)
Theorem run_sliced_ok_iff_extent self s (t : Array F) (n : nat)
  (all_steps : bool) (axis : Z) :
  keeps_state_type self -> well_formed s -> well_formed t ->
  axis_in_range axis (rank t) = true ->
  is_ok (run self s (Some t) n all_steps (Some axis)) = true <->
  extent (axis_index axis (rank t)) (shape t) = n.
Proof.
  intros Hca Hs Ht Hax. split.
  - intros Hok.
    destruct (Nat.eq_dec (extent (axis_index axis (rank t)) (shape t)) n)
      as [Heq|Hne]; [exact Heq|].
    rewrite run_rejected
      with (e := ScanLengthError n (extent (axis_index axis (rank t)) (shape t)))
      in Hok by now apply scan_inputs_mismatch.
    discriminate.
  - intros Hn.
    rewrite run_result
      with (xs := map (fun i => Some (take (axis_index axis (rank t)) i t))
                      (seq 0 n))
      by now apply scan_inputs_sliced.
    rewrite keeps_state_type_along by assumption.
    now destruct all_steps.
Qed.

(** X7.  An [input_in_axis] outside the input's rank makes the run fail
    before any transition; in particular a scalar input has no axis to
    scan over. *)
Theorem run_axis_out_of_range self s (t : Array F) (n : nat)
  (all_steps : bool) (axis : Z) :
  axis_in_range axis (rank t) = false ->
  run self s (Some t) n all_steps (Some axis) = Err (AxisError axis (rank t)).
Proof.
  intros Hax. apply run_rejected. unfold scan_inputs.
  now rewrite canonicalize_axis_out_of_range.
Qed.

(** X8.  A negative [input_in_axis] counts from the last axis: it gives
    the run of the axis increased by the input's rank. *)
Theorem run_negative_axis self s (t : Array F) (n : nat) (all_steps : bool)
  (axis : Z) :
  axis_in_range axis (rank t) = true -> (axis < 0)%Z ->
  run self s (Some t) n all_steps (Some axis) =
  run self s (Some t) n all_steps (Some (axis + Z.of_nat (rank t))%Z).
Proof.
  intros Hax Hneg.
  assert (Hin : axis_in_range (axis + Z.of_nat (rank t)) (rank t) = true).
  { unfold axis_in_range in *. apply andb_prop in Hax as [Hlo Hhi].
    apply Z.leb_le in Hlo. apply andb_true_intro. split.
    - apply Z.leb_le. lia.
    - apply Z.ltb_lt. lia. }
  assert (Hidx : axis_index (axis + Z.of_nat (rank t)) (rank t)
                 = axis_index axis (rank t)).
  { unfold axis_in_range in Hax. apply andb_prop in Hax as [Hlo _].
    apply Z.leb_le in Hlo. unfold axis_index.
    apply Z.ltb_lt in Hneg. rewrite Hneg.
    destruct (axis + Z.of_nat (rank t) <? 0)%Z eqn:H; [|reflexivity].
    apply Z.ltb_lt in H. lia. }
  unfold run, nnx_scan, scan_inputs, canonicalize_axis.
  now rewrite Hax, Hin, Hidx.
Qed.

End RunnerProperties.

Section RunnerComposition.

Context {F : Type}.

Implicit Types (self : CA F) (s : Array F) (input : option (Array F)).

Lemma firstn_repeat_le {A : Type} (v : A) (k m : nat) :
  k <= m -> firstn k (repeat v m) = repeat v k.
Proof.
  revert m. induction k as [|k IH]; intros [|m] Hk; simpl; try reflexivity;
    try lia.
  f_equal. apply IH. lia.
Qed.

(** X10.  With a constant or absent input, the trajectory over [a + b]
    steps continues, from entry [a] on, as the trajectory over [b] steps
    started from the state reached after [a] steps. *)
Theorem run_trajectory_compose self s input (a b : nat) :
  keeps_state_type self -> well_formed s ->
  exists whole mid rest,
    run self s input (a + b) true None = Ok whole /\
    run self s input a false None = Ok mid /\
    run self mid input b true None = Ok rest /\
    forall i, i <= b -> index0 (a + i) whole = index0 i rest.
Proof.
  intros Hca Hs.
  destruct (@run_trajectory_entries F self s input (a + b) None _ Hca Hs
              (scan_inputs_broadcast (a + b) input))
    as (whole & Hwhole & _ & _ & Hnth).
  rewrite repeat_length in Hnth.
  set (mid := iterate_steps self s (repeat input a)).
  destruct (iterate_steps_typed (repeat input a) Hca Hs) as [Hmid _].
  fold mid in Hmid.
  destruct (@run_trajectory_entries F self mid input b None _ Hca Hmid
              (scan_inputs_broadcast b input))
    as (rest & Hrest & _ & _ & Hnth').
  rewrite repeat_length in Hnth'.
  exists whole, mid, rest.
  split; [exact Hwhole|]. split; [|split; [exact Hrest|]].
  - rewrite run_result with (xs := repeat input a)
      by apply scan_inputs_broadcast.
    now rewrite keeps_state_type_along.
  - intros i Hi. rewrite Hnth, Hnth' by lia.
    rewrite !firstn_repeat_le by lia.
    now rewrite repeat_app, iterate_steps_app.
Qed.

(** X11.  With sub-units that keep the state's shape and dtype and an
    input the scan accepts, the final state is a well-formed array of
    the shape of the first state, and the trajectory is a well-formed
    array with one more leading axis. *)
Theorem run_results_well_formed self s input (n : nat) (axis : option Z) :
  keeps_state_type self -> well_formed s -> input_fits input axis n ->
  (exists last,
     run self s input n false axis = Ok last /\
     well_formed last /\ shape last = shape s) /\
  (exists traj,
     run self s input n true axis = Ok traj /\
     well_formed traj /\ rank traj = S (rank s)).
Proof.
  intros Hca Hs Hfit.
  pose proof (scan_inputs_fits _ _ _ Hfit) as Hxs. split.
  - exists (iterate_steps self s (input_slices input axis n)). split.
    + rewrite run_result with (xs := input_slices input axis n) by assumption.
      now rewrite keeps_state_type_along.
    + now apply iterate_steps_typed.
  - destruct (@run_trajectory_entries F self s input n axis _ Hca Hs Hxs)
      as (traj & Htraj & Hsh & Hwf & _).
    exists traj. split; [exact Htraj|]. split; [exact Hwf|].
    unfold rank. now rewrite Hsh.
Qed.

Lemma iterate_steps_ext self self' s (xs : list (option (Array F))) :
  (forall s x, step self s x = step self' s x) ->
  iterate_steps self s xs = iterate_steps self' s xs.
Proof.
  intros Hext. revert s. induction xs as [|x xs IH]; intros s; [reflexivity|].
  rewrite !iterate_steps_cons, Hext. apply IH.
Qed.

Lemma states_after_ext self self' s (xs : list (option (Array F))) :
  (forall s x, step self s x = step self' s x) ->
  states_after self s xs = states_after self' s xs.
Proof.
  intros Hext. revert s. induction xs as [|x xs IH]; intros s; [reflexivity|].
  simpl. now rewrite Hext, IH.
Qed.

Lemma keeps_shape_along_ext self self' s (xs : list (option (Array F))) :
  (forall s x, step self s x = step self' s x) ->
  keeps_shape_along self s xs = keeps_shape_along self' s xs.
Proof.
  intros Hext. revert s. induction xs as [|x xs IH]; intros s; [reflexivity|].
  simpl. now rewrite Hext, IH.
Qed.

(** X12.  A run sees the engine only through its transition: two
    engines whose [step] agree on every state and input give the same
    runs, however the work is split between perception and update. *)
Theorem run_depends_on_step_only self self' :
  (forall s x, step self s x = step self' s x) ->
  forall s input (n : nat) (all_steps : bool) (axis : option Z),
    run self s input n all_steps axis = run self' s input n all_steps axis.
Proof.
  intros Hext s input n all_steps axis.
  destruct (scan_inputs axis n input) as [xs|e] eqn:Hxs.
  - rewrite !run_result with (xs := xs) by assumption.
    rewrite keeps_shape_along_ext with (self' := self') by assumption.
    rewrite iterate_steps_ext with (self' := self') by assumption.
    rewrite states_after_ext with (self' := self') by assumption.
    reflexivity.
  - now rewrite !run_rejected with (e := e) by assumption.
Qed.

End RunnerComposition.

(* ================================================================== *)
(** * Further properties of the encoding *)

Lemma broadcast_rev_absorb_r (a b c : Shape) :
  broadcast_rev a b = Some c -> broadcast_rev b c = Some c.
Proof.
  revert b c. induction a as [|x a IH]; intros b c H.
  - simpl in H. inversion H; subst. apply broadcast_rev_refl.
  - destruct b as [|y b].
    + inversion H; subst. reflexivity.
    + simpl in H.
      destruct (x =? y) eqn:Hxy;
        [|destruct (x =? 1) eqn:Hx1; [|destruct (y =? 1) eqn:Hy1;
                                        [|discriminate]]];
        destruct (broadcast_rev a b) as [c'|] eqn:Hab; try discriminate;
        inversion H; subst; simpl.
      * apply Nat.eqb_eq in Hxy. subst.
        now rewrite Nat.eqb_refl, (IH _ _ Hab).
      * now rewrite Nat.eqb_refl, (IH _ _ Hab).
      * rewrite Nat.eqb_sym, Hxy, Hy1, (IH _ _ Hab). reflexivity.
Qed.

(** An offset into the broadcast array comes from inside the source. *)
Lemma source_offset_lt (a c : Shape) (j : nat) :
  broadcast_rev a c = Some c -> j < size c -> source_offset a c j < size a.
Proof.
  revert c j. induction a as [|x a IH]; intros c j Hb Hj.
  - destruct c; simpl; lia.
  - destruct c as [|y c]; [discriminate|].
    cbn [source_offset size fold_right] in *.
    assert (Hy : y <> 0) by (intros ->; simpl in Hj; lia).
    assert (Hdiv : j / y < size c)
      by (apply Nat.Div0.div_lt_upper_bound; unfold size; lia).
    assert (Hrec : broadcast_rev a c = Some c /\ (x = y \/ x = 1)).
    { simpl in Hb.
      destruct (x =? y) eqn:Hxy;
        [|destruct (x =? 1) eqn:Hx1; [|destruct (y =? 1) eqn:Hy1;
                                        [|discriminate]]];
        destruct (broadcast_rev a c) as [c'|]; try discriminate;
        inversion Hb; subst.
      - apply Nat.eqb_eq in Hxy. auto.
      - apply Nat.eqb_eq in Hx1. auto.
      - now rewrite Nat.eqb_refl in Hxy. }
    destruct Hrec as [Hac Hx].
    specialize (IH _ _ Hac Hdiv). fold (size a).
    destruct (x =? 1) eqn:Hx1.
    + apply Nat.eqb_eq in Hx1. subst. lia.
    + destruct Hx as [->| ->]; [|discriminate].
      pose proof (Nat.mod_upper_bound j y Hy). nia.
Qed.

Lemma broadcast_rev_ones (a b : Shape) :
  all_ones b = true -> length b <= length a -> broadcast_rev a b = Some a.
Proof.
  revert b. induction a as [|x a IH]; intros [|y b] Hb Hlen;
    cbn [length] in Hlen; try reflexivity; try lia.
  unfold all_ones in Hb. cbn [forallb] in Hb.
  apply andb_prop in Hb as [Hy Hb]. apply Nat.eqb_eq in Hy. subst y.
  cbn [broadcast_rev]. rewrite (IH b Hb) by lia. cbn [option_map].
  destruct (x =? 1) eqn:Hx1; reflexivity.
Qed.

Lemma source_offset_ones (a c : Shape) (j : nat) :
  all_ones a = true -> source_offset a c j = 0.
Proof.
  revert c j. induction a as [|x a IH]; intros [|y c] j Ha;
    try reflexivity.
  unfold all_ones in Ha. cbn [forallb] in Ha.
  apply andb_prop in Ha as [Hx Ha]. apply Nat.eqb_eq in Hx. subst x.
  cbn [source_offset]. rewrite (IH _ _ Ha). reflexivity.
Qed.

Lemma all_ones_rev (sh : Shape) : all_ones (rev sh) = all_ones sh.
Proof.
  unfold all_ones. induction sh as [|d sh IH]; [reflexivity|].
  cbn [rev]. rewrite forallb_app, IH. cbn [forallb].
  destruct (1 =? d), (forallb (Nat.eqb 1) sh); reflexivity.
Qed.

Section BroadcastLemmas.

Context {F : Type}.

Implicit Types (t a b : Array F).

Lemma flat_map_singletons (g : nat -> list F) (n : nat) :
  (forall j, j < n -> length (g j) = 1) ->
  length (flat_map g (seq 0 n)) = n.
Proof.
  intros H. rewrite flat_map_concat_map.
  rewrite (@length_concat_uniform F 1).
  - rewrite length_map, length_seq. lia.
  - apply Forall_map, Forall_forall. intros j Hj. apply in_seq in Hj.
    apply H. lia.
Qed.

(** Broadcasting a well-formed array gives a well-formed array. *)
Lemma broadcast_to_well_formed t (sh : Shape) :
  well_formed t ->
  broadcast_rev (rev (shape t)) (rev sh) = Some (rev sh) ->
  well_formed (broadcast_to t sh).
Proof.
  intros Hwf Hb. unfold well_formed, broadcast_to. cbn [data shape].
  apply flat_map_singletons. intros j Hj.
  assert (Hlt : source_offset (rev (shape t)) (rev sh) j < length (data t)).
  { rewrite Hwf, <- (size_rev (shape t)).
    apply source_offset_lt; [exact Hb | now rewrite size_rev]. }
  apply nth_error_Some in Hlt.
  now destruct (nth_error _ _).
Qed.

Lemma elementwise_well_formed (f : F -> F -> F) a b c :
  well_formed a -> well_formed b ->
  elementwise f a b = Ok c -> well_formed c.
Proof.
  intros Ha Hb H. unfold elementwise in H.
  destruct (broadcast_shapes (shape a) (shape b)) as [sh|] eqn:Hsh;
    [|discriminate].
  inversion H; subst. clear H.
  unfold broadcast_shapes in Hsh.
  destruct (broadcast_rev (rev (shape a)) (rev (shape b))) as [c'|] eqn:Hab;
    [|discriminate].
  inversion Hsh; subst. clear Hsh.
  assert (Hwa : well_formed (broadcast_to a (rev c'))).
  { apply broadcast_to_well_formed; [exact Ha|]. rewrite rev_involutive.
    exact (broadcast_rev_absorb _ _ Hab). }
  assert (Hwb : well_formed (broadcast_to b (rev c'))).
  { apply broadcast_to_well_formed; [exact Hb|]. rewrite rev_involutive.
    exact (broadcast_rev_absorb_r _ _ Hab). }
  change (length (data (broadcast_to a (rev c'))) = size (rev c')) in Hwa.
  change (length (data (broadcast_to b (rev c'))) = size (rev c')) in Hwb.
  change (length (zip_with f (data (broadcast_to a (rev c')))
                             (data (broadcast_to b (rev c'))))
          = size (rev c')).
  rewrite zip_with_length; [exact Hwa|]. now rewrite Hwa, Hwb.
Qed.

(** Broadcasting an array with a single element repeats that element. *)
Lemma broadcast_to_single (v : F) (ones sh : Shape) :
  all_ones ones = true ->
  data (broadcast_to (mkArray ones [v]) sh) = repeat v (size sh).
Proof.
  intros Hones. unfold broadcast_to. cbn [data shape].
  rewrite flat_map_concat_map.
  rewrite (map_ext_in _ (fun _ => [v])).
  - rewrite <- (repeat_as_map [v] 0 (size sh)).
    induction (size sh) as [|m IH]; simpl; [reflexivity|now rewrite IH].
  - intros j _. rewrite source_offset_ones; [reflexivity|].
    now rewrite all_ones_rev.
Qed.

Lemma zip_with_repeat_nth_error (f : F -> F -> F) (l : list F) (w : F)
  (j : nat) (x : F) :
  nth_error l j = Some x ->
  nth_error (zip_with f l (repeat w (length l))) j = Some (f x w).
Proof.
  intros Hx. apply zip_with_nth_error; [exact Hx|].
  rewrite nth_error_repeat; [reflexivity|].
  apply nth_error_Some. congruence.
Qed.

End BroadcastLemmas.

Section EncodeProperties.

Context {F Key : Type}.

Variables (add mul : F -> F -> F) (exp : F -> F) (half : F).
Variable normal_sample : Key -> Shape -> nat -> F.

Local Abbreviation encode' := (encode add mul exp half normal_sample).
Local Abbreviation normal := (random_normal normal_sample).

(** X13.  Whenever the encoder's mean and log-variance are well-formed
    arrays whose shapes broadcast together, [encode] returns a
    well-formed array of the broadcast shape: every element of the
    result is defined, also where one operand is repeated. *)
Theorem encode_well_formed (u : UnsupervisedCA F) (target : Array F)
  (key : Key) (sh : Shape) :
  well_formed (fst (encoder u target)) ->
  well_formed (snd (encoder u target)) ->
  broadcast_shapes (shape (fst (encoder u target)))
                   (shape (snd (encoder u target))) = Some sh ->
  exists enc,
    encode' u target key = Ok enc /\ shape enc = sh /\ well_formed enc.
Proof.
  intros Hm Hl Hb. rewrite encode_unfold.
  set (mean := fst (encoder u target)) in *.
  set (logvar := snd (encoder u target)) in *.
  set (noise := normal key (shape mean)).
  set (std := pointwise exp (pointwise (mul half) logvar)).
  assert (Hnoise : well_formed noise) by apply random_normal_well_formed.
  assert (Hstd : well_formed std) by now repeat apply pointwise_well_formed.
  destruct (elementwise mul noise std) as [ns|e] eqn:Hns.
  - pose proof (elementwise_well_formed mul Hnoise Hstd Hns) as Hwns.
    apply elementwise_shape in Hns.
    change (broadcast_shapes (shape mean) (shape logvar) = Some (shape ns))
      in Hns.
    assert (Hsh : shape ns = sh) by congruence.
    cbn [bind].
    destruct (elementwise add mean ns) as [enc|e] eqn:Henc.
    + exists enc. split; [reflexivity|]. split.
      * apply elementwise_shape in Henc.
        rewrite Hsh, (broadcast_shapes_absorb _ _ Hb) in Henc. congruence.
      * exact (elementwise_well_formed add Hm Hwns Henc).
    + exfalso. unfold elementwise in Henc.
      rewrite Hsh, (broadcast_shapes_absorb _ _ Hb) in Henc. discriminate.
  - exfalso. unfold elementwise in Hns.
    change (shape noise) with (shape mean) in Hns.
    change (shape std) with (shape logvar) in Hns.
    rewrite Hb in Hns. discriminate.
Qed.

(** X14.  A log-variance holding a single element (all extents 1, rank
    at most that of the mean) is shared by every element of the mean:
    the result has the shape of the mean and its element [j] is
    [mean_j + noise_j * exp(0.5 * v)]. *)
Theorem encode_shared_logvar (u : UnsupervisedCA F) (target : Array F)
  (key : Key) (ones : Shape) (v : F) :
  well_formed (fst (encoder u target)) ->
  snd (encoder u target) = mkArray ones [v] ->
  all_ones ones = true ->
  length ones <= rank (fst (encoder u target)) ->
  exists enc,
    encode' u target key = Ok enc /\
    shape enc = shape (fst (encoder u target)) /\
    forall j m,
      nth_error (data (fst (encoder u target))) j = Some m ->
      nth_error (data enc) j =
      Some (add m (mul (normal_sample key (shape (fst (encoder u target))) j)
                       (exp (mul half v)))).
Proof.
  intros Hm Hlv Hones Hrank. rewrite encode_unfold, Hlv.
  set (mean := fst (encoder u target)) in *.
  set (noise := normal key (shape mean)).
  set (w := exp (mul half v)).
  change (pointwise exp (pointwise (mul half) (mkArray ones [v])))
    with (mkArray ones [w]).
  assert (Hnoise : well_formed noise) by apply random_normal_well_formed.
  assert (Hb : broadcast_shapes (shape mean) ones = Some (shape mean)).
  { unfold broadcast_shapes. rewrite broadcast_rev_ones.
    - simpl. now rewrite rev_involutive.
    - now rewrite all_ones_rev.
    - rewrite !length_rev. exact Hrank. }
  assert (Hlen : length (data noise) = size (shape mean)) by exact Hnoise.
  assert (Hns : elementwise mul noise (mkArray ones [w]) =
                Ok (mkArray (shape mean)
                      (zip_with mul (data noise)
                                (repeat w (length (data noise)))))).
  { unfold elementwise. change (shape noise) with (shape mean).
    cbn [shape]. rewrite Hb.
    change (shape mean) with (shape noise) at 2.
    rewrite (broadcast_to_same Hnoise).
    rewrite broadcast_to_single by exact Hones.
    now rewrite Hlen. }
  rewrite Hns. cbn [bind].
  rewrite elementwise_same_shape; [| exact Hm | | reflexivity].
  - eexists. split; [reflexivity|]. split; [reflexivity|].
    intros j m Hj. cbn [data].
    apply zip_with_nth_error; [exact Hj|].
    apply zip_with_repeat_nth_error.
    apply random_normal_nth. rewrite <- Hm.
    apply nth_error_Some. congruence.
  - unfold well_formed. cbn [data shape].
    rewrite zip_with_length; [exact Hlen|]. now rewrite repeat_length.
Qed.

End EncodeProperties.

(* ================================================================== *)
(** * Concrete runs for the further properties *)

Lemma run_final_is_last_of_trajectory_witness :
  keeps_state_type Demo.add_input /\ well_formed Demo.zeros /\
  input_fits (Some Demo.three_inputs) (Some 0%Z) 3 /\
  exists traj last,
    run Demo.add_input Demo.zeros (Some Demo.three_inputs) 3 true (Some 0%Z)
    = Ok traj /\
    run Demo.add_input Demo.zeros (Some Demo.three_inputs) 3 false (Some 0%Z)
    = Ok last /\
    index0 3 traj = last.
Proof.
  assert (Hfit : input_fits (Some Demo.three_inputs) (Some 0%Z) 3)
    by (simpl; repeat split; reflexivity).
  assert (Hs : well_formed Demo.zeros) by reflexivity.
  split; [apply DemoFacts.add_input_keeps_state_type|].
  split; [exact Hs|]. split; [exact Hfit|].
  exact (@run_final_is_last_of_trajectory Z Demo.add_input Demo.zeros
           (Some Demo.three_inputs) 3 (Some 0%Z)
           DemoFacts.add_input_keeps_state_type Hs Hfit).
Defined.

Lemma run_shape_change_fails_witness :
  input_fits (@None (Array Z)) None 2 /\
  shape (iterate_steps Demo.grow Demo.zeros
           (firstn 1 (input_slices None None 2)))
  <> shape (iterate_steps Demo.grow Demo.zeros
              (firstn 0 (input_slices None None 2))) /\
  run Demo.grow Demo.zeros None 2 true None = Err CarryTypeError.
Proof.
  assert (Hfit : input_fits (@None (Array Z)) None 2) by exact I.
  assert (Hne : shape (iterate_steps Demo.grow Demo.zeros
                         (firstn 1 (input_slices None None 2)))
                <> shape (iterate_steps Demo.grow Demo.zeros
                            (firstn 0 (input_slices None None 2))))
    by (simpl; discriminate).
  split; [exact Hfit|]. split; [exact Hne|].
  apply (@run_shape_change_fails Z Demo.grow Demo.zeros None 2 true None 0
           Hfit); [lia | exact Hne].
Defined.

Lemma run_sliced_ok_iff_extent_witness :
  keeps_state_type Demo.add_input /\ well_formed Demo.zeros /\
  well_formed Demo.three_inputs /\
  axis_in_range 0%Z (rank Demo.three_inputs) = true /\
  extent (axis_index 0%Z (rank Demo.three_inputs)) (shape Demo.three_inputs)
  = 3.
Proof.
  assert (Hs : well_formed Demo.zeros) by reflexivity.
  assert (Ht : well_formed Demo.three_inputs) by reflexivity.
  split; [apply DemoFacts.add_input_keeps_state_type|].
  split; [exact Hs|]. split; [exact Ht|]. split; [reflexivity|].
  apply (proj1 (@run_sliced_ok_iff_extent Z Demo.add_input Demo.zeros
                  Demo.three_inputs 3 true 0%Z
                  DemoFacts.add_input_keeps_state_type Hs Ht eq_refl)).
  reflexivity.
Defined.

Lemma run_axis_out_of_range_witness :
  axis_in_range 0%Z (rank (mkArray [] [5%Z])) = false /\
  run Demo.add_input Demo.zeros (Some (mkArray [] [5%Z])) 1 false (Some 0%Z)
  = Err (AxisError 0 0).
Proof.
  split; [reflexivity|].
  apply (@run_axis_out_of_range Z Demo.add_input Demo.zeros
           (mkArray [] [5%Z]) 1 false 0%Z).
  reflexivity.
Defined.

Lemma run_negative_axis_witness :
  axis_in_range (-2)%Z (rank Demo.three_inputs) = true /\
  run Demo.add_input Demo.zeros (Some Demo.three_inputs) 3 true (Some (-2)%Z)
  = run Demo.add_input Demo.zeros (Some Demo.three_inputs) 3 true
        (Some (-2 + Z.of_nat (rank Demo.three_inputs))%Z).
Proof.
  split; [reflexivity|].
  apply (@run_negative_axis Z Demo.add_input Demo.zeros Demo.three_inputs 3
           true (-2)%Z); [reflexivity | lia].
Defined.

Lemma run_trajectory_compose_witness :
  keeps_state_type Demo.incr /\ well_formed Demo.zeros /\
  exists whole mid rest,
    run Demo.incr Demo.zeros None (1 + 2) true None = Ok whole /\
    run Demo.incr Demo.zeros None 1 false None = Ok mid /\
    run Demo.incr mid None 2 true None = Ok rest /\
    forall i, i <= 2 -> index0 (1 + i) whole = index0 i rest.
Proof.
  assert (Hs : well_formed Demo.zeros) by reflexivity.
  split; [apply DemoFacts.incr_keeps_state_type|]. split; [exact Hs|].
  exact (@run_trajectory_compose Z Demo.incr Demo.zeros None 1 2
           DemoFacts.incr_keeps_state_type Hs).
Defined.

Lemma run_results_well_formed_witness :
  keeps_state_type Demo.add_input /\ well_formed Demo.zeros /\
  input_fits (Some Demo.three_inputs) (Some 0%Z) 3 /\
  exists traj,
    run Demo.add_input Demo.zeros (Some Demo.three_inputs) 3 true (Some 0%Z)
    = Ok traj /\
    well_formed traj /\ rank traj = S (rank Demo.zeros).
Proof.
  assert (Hfit : input_fits (Some Demo.three_inputs) (Some 0%Z) 3)
    by (simpl; repeat split; reflexivity).
  assert (Hs : well_formed Demo.zeros) by reflexivity.
  split; [apply DemoFacts.add_input_keeps_state_type|].
  split; [exact Hs|]. split; [exact Hfit|].
  exact (proj2 (@run_results_well_formed Z Demo.add_input Demo.zeros
                  (Some Demo.three_inputs) 3 (Some 0%Z)
                  DemoFacts.add_input_keeps_state_type Hs Hfit)).
Defined.

Lemma run_depends_on_step_only_witness :
  (forall s x,
     step Demo.incr s x =
     step (mkCA (fun t : Array Z => expand_dims0 t) (update Demo.incr)) s x) /\
  run Demo.incr Demo.zeros None 3 true None =
  run (mkCA (fun t : Array Z => expand_dims0 t) (update Demo.incr))
      Demo.zeros None 3 true None.
Proof.
  assert (Hext : forall s x,
            step Demo.incr s x =
            step (mkCA (fun t : Array Z => expand_dims0 t) (update Demo.incr))
                 s x) by reflexivity.
  split; [exact Hext|].
  exact (@run_depends_on_step_only Z Demo.incr _ Hext Demo.zeros None 3 true
           None).
Defined.

Lemma encode_well_formed_witness :
  well_formed (fst (encoder Demo.shared_logvar Demo.vec2)) /\
  well_formed (snd (encoder Demo.shared_logvar Demo.vec2)) /\
  broadcast_shapes (shape (fst (encoder Demo.shared_logvar Demo.vec2)))
                   (shape (snd (encoder Demo.shared_logvar Demo.vec2)))
  = Some [2] /\
  exists enc,
    encode Z.add Z.mul Demo.pow2 1%Z Demo.sample Demo.shared_logvar Demo.vec2
           100%Z = Ok enc /\
    shape enc = [2] /\ well_formed enc.
Proof.
  assert (Hm : well_formed (fst (encoder Demo.shared_logvar Demo.vec2)))
    by reflexivity.
  assert (Hl : well_formed (snd (encoder Demo.shared_logvar Demo.vec2)))
    by reflexivity.
  split; [exact Hm|]. split; [exact Hl|]. split; [reflexivity|].
  exact (@encode_well_formed Z Z Z.add Z.mul Demo.pow2 1%Z Demo.sample
           Demo.shared_logvar Demo.vec2 100%Z [2] Hm Hl eq_refl).
Defined.

Lemma encode_shared_logvar_witness :
  well_formed (fst (encoder Demo.shared_logvar Demo.vec2)) /\
  all_ones [1] = true /\
  exists enc,
    encode Z.add Z.mul Demo.pow2 1%Z Demo.sample Demo.shared_logvar Demo.vec2
           100%Z = Ok enc /\
    shape enc = [2] /\
    nth_error (data enc) 1 = Some (20 + 101 * Demo.pow2 (1 * 0))%Z.
Proof.
  assert (Hm : well_formed (fst (encoder Demo.shared_logvar Demo.vec2)))
    by reflexivity.
  split; [exact Hm|]. split; [reflexivity|].
  assert (Hrank : length [1] <= rank (fst (encoder Demo.shared_logvar Demo.vec2)))
    by (vm_compute; lia).
  destruct (@encode_shared_logvar Z Z Z.add Z.mul Demo.pow2 1%Z Demo.sample
              Demo.shared_logvar Demo.vec2 100%Z [1] 0%Z Hm eq_refl eq_refl
              Hrank)
    as [enc [Henc [Hsh Hnth]]].
  exists enc. split; [exact Henc|]. split; [exact Hsh|].
  apply (Hnth 1 20%Z). reflexivity.
Defined.

(* ================================================================== *)
(** * The call with its checks *)

Section CallLemmas.

Context {F : Type}.

Implicit Types (self : CA F) (s : Array F) (input : option (Array F)).

(** For a natural number of steps the call is the run, once the
    arguments fit and the traced body keeps the carry's type. *)
Lemma call_of_nat self s input (n : nat) (all_steps : bool)
  (axis : option Z) :
  call self s input (Z.of_nat n) all_steps axis =
  (xs <- scan_inputs axis n input ;;
   if shape_eqb (shape s) (shape (step self s (traced_input axis input)))
   then run self s input n all_steps axis
   else Err CarryTypeError).
Proof.
  unfold call, nnx_scan_traced, scan_inputs_int.
  assert (Hn : (Z.of_nat n <? 0)%Z = false) by (apply Z.ltb_ge; lia).
  rewrite Hn, Nat2Z.id.
  destruct (scan_inputs axis n input) as [xs|e] eqn:Hxs; cbn [bind];
    [|reflexivity].
  unfold same_carry_type. cbn [scan_step fst snd].
  destruct (shape_eqb _ _); [|reflexivity].
  unfold run, nnx_scan. rewrite Hxs. cbn [bind].
  destruct (scan_loop _ _ _ _) as [[[c last] ys]|e]; [|reflexivity].
  cbn [bind]. now destruct all_steps.
Qed.

(** A negative number of steps without a scanned input: the body is
    traced, no transition is made, and there is nothing to stack. *)
Lemma call_negative self s input (n : Z) (all_steps : bool) :
  (n < 0)%Z ->
  call self s input n all_steps None =
  if shape_eqb (shape s) (shape (step self s input))
  then if all_steps then Err (NegativeLengthError n) else Ok s
  else Err CarryTypeError.
Proof.
  intros Hn. apply Z.ltb_lt in Hn.
  unfold call, nnx_scan_traced, scan_inputs_int. rewrite Hn.
  assert (Hxs : match input, @None Z with
                | Some x, Some axis =>
                    k <- canonicalize_axis axis (rank x) ;;
                    Err (NegativeLengthError n)
                | _, _ => Ok (@nil (option (Array F)))
                end = Ok []) by now destruct input.
  rewrite Hxs.
  assert (Hx : traced_input None input = input) by now destruct input.
  rewrite Hx. unfold same_carry_type.
  cbn [bind scan_step fst snd scan_loop].
  destruct (shape_eqb _ _); [|reflexivity].
  now destruct all_steps.
Qed.

Lemma call_keeps_state_type self s input (n : nat) (all_steps : bool)
  (axis : option Z) xs :
  keeps_state_type self -> well_formed s ->
  scan_inputs axis n input = Ok xs ->
  call self s input (Z.of_nat n) all_steps axis =
  run self s input n all_steps axis.
Proof.
  intros Hca Hs Hxs. rewrite call_of_nat, Hxs. cbn [bind].
  destruct (keeps_state_type_step (traced_input axis input) Hca Hs)
    as [_ Hsh].
  now rewrite Hsh, shape_eqb_refl.
Qed.

End CallLemmas.

Section CallClaims.

Context {F : Type}.

Implicit Types (self : CA F) (s : Array F) (input : option (Array F)).


Lemma run_all_nil self s input :
  run self s input 0 true None = Ok (mkArray (1 :: shape s) (data s)).
Proof.
  unfold run, nnx_scan. rewrite scan_inputs_broadcast. simpl.
  unfold concatenate0. simpl. now rewrite shape_eqb_refl, app_nil_r.
Qed.

(** C2.  With [num_steps = 0] and a constant or absent input, for an
    engine whose sub-units keep the state's shape and dtype, the call
    returns the initial state itself when [all_steps] is off, and the
    one-element trajectory [s[None, ...]] holding the elements of [s]
    when it is on; no transition is applied. *)
Theorem call_zero_steps self s input :
  keeps_state_type self -> well_formed s ->
  call self s input 0 false None = Ok s /\
  call self s input 0 true None = Ok (mkArray (1 :: shape s) (data s)).
Proof.
  intros Hca Hs. change 0%Z with (Z.of_nat 0).
  rewrite !call_keeps_state_type with (xs := repeat input 0)
    by (auto using scan_inputs_broadcast).
  split; [apply run_last_nil | apply run_all_nil].
Qed.

(** C9 (as amended).  The call validates nothing itself.  With
    [input_in_axis] set and no input there is nothing to slice: the
    call is the call without [input_in_axis], and with [all_steps] off
    it returns normally for sub-units that keep the state's type.  With
    a negative [num_steps] and a constant or absent input no transition
    is made: the call returns the first state when [all_steps] is off,
    and fails when it is on, the outputs having no length to be stacked
    along. *)
Theorem call_without_validation self s input (n : Z) (all_steps : bool)
  (axis : Z) :
  call self s None n all_steps (Some axis) = call self s None n all_steps None /\
  (keeps_state_type self -> well_formed s ->
   is_ok (call self s None n false (Some axis)) = true) /\
  (keeps_state_type self -> well_formed s -> (n < 0)%Z ->
   call self s input n false None = Ok s /\
   call self s input n true None = Err (NegativeLengthError n)).
Proof.
  split; [reflexivity|]. split.
  - intros Hca Hs.
    change (call self s None n false (Some axis))
      with (call self s None n false None).
    destruct (Z.ltb_spec n 0) as [Hneg|Hpos].
    + rewrite call_negative by exact Hneg.
      destruct (keeps_state_type_step None Hca Hs) as [_ Hsh].
      now rewrite Hsh, shape_eqb_refl.
    + rewrite <- (Z2Nat.id n) by exact Hpos.
      rewrite call_keeps_state_type with (xs := repeat None (Z.to_nat n))
        by (auto using scan_inputs_broadcast).
      rewrite run_result with (xs := repeat None (Z.to_nat n))
        by apply scan_inputs_broadcast.
      now rewrite keeps_state_type_along.
  - intros Hca Hs Hneg.
    rewrite !call_negative by exact Hneg.
    destruct (keeps_state_type_step input Hca Hs) as [_ Hsh].
    now rewrite Hsh, shape_eqb_refl.
Qed.

End CallClaims.

(* ================================================================== *)
(** * The engine's variables across calls *)

Section VariablesLemmas.

Context {F V : Type}.

Implicit Types (self : StatefulCA F V) (vars : V) (s : Array F).
Implicit Types (x input : option (Array F)).

Lemma step_vars_reads_only self vars s x :
  reads_only self ->
  step_vars self vars s x = (step (freeze self vars) s x, vars).
Proof.
  intros [Hp Hu]. unfold step_vars, step, freeze. cbn [perceive update].
  specialize (Hp vars s).
  destruct (perceive_vars self vars s) as [p v1]. cbn [fst snd] in *.
  subst v1. specialize (Hu vars s p x).
  destruct (update_vars self vars s p x) as [s' v2]. cbn [fst snd] in *.
  now subst v2.
Qed.

Lemma scan_step_vars_reads_only self vars s x (all_steps : bool) :
  reads_only self ->
  scan_step_vars self all_steps (vars, s) x =
  ((vars, step (freeze self vars) s x),
   if all_steps then Some (step (freeze self vars) s x) else None).
Proof.
  intros H. unfold scan_step_vars. now rewrite step_vars_reads_only.
Qed.

(** With sub-units that only read, the scan carries the variables
    through unchanged and makes the transitions of the frozen engine. *)
Lemma scan_loop_vars_result self vars s (all_steps : bool)
  (xs : list (option (Array F))) :
  reads_only self ->
  scan_loop same_vars_carry_type (scan_step_vars self all_steps) (vars, s) xs =
  if keeps_shape_along (freeze self vars) s xs
  then Ok ((vars, iterate_steps (freeze self vars) s xs),
           map (fun t => if all_steps then Some t else None)
               (states_after (freeze self vars) s xs))
  else Err CarryTypeError.
Proof.
  intros Hro. revert s. induction xs as [|x xs IH]; intros s; [reflexivity|].
  cbn [scan_loop keeps_shape_along].
  rewrite scan_step_vars_reads_only by exact Hro.
  unfold same_vars_carry_type at 1. cbn [fst snd].
  destruct (shape_eqb _ _); [|reflexivity].
  rewrite IH. cbn [andb].
  now destruct (keeps_shape_along _ _ xs).
Qed.

Lemma call_vars_reads_only self vars s input (n : Z) (all_steps : bool)
  (axis : option Z) :
  reads_only self ->
  call_vars self vars s input n all_steps axis =
  (r <- call (freeze self vars) s input n all_steps axis ;; Ok (r, vars)).
Proof.
  intros Hro. unfold call_vars, call, nnx_scan_traced.
  destruct (scan_inputs_int axis n input) as [xs|e]; cbn [bind];
    [|reflexivity].
  rewrite scan_step_vars_reads_only by exact Hro.
  change (same_carry_type (freeze self vars, s)
            (fst (scan_step all_steps (freeze self vars, s)
                    (traced_input axis input))))
    with (shape_eqb (shape s)
            (shape (step (freeze self vars) s (traced_input axis input)))).
  unfold same_vars_carry_type at 1. cbn [fst snd].
  destruct (shape_eqb _ _); [|reflexivity].
  rewrite scan_loop_vars_result by exact Hro. rewrite scan_loop_result.
  destruct (keeps_shape_along _ _ _); [|reflexivity].
  cbn [bind]. destruct all_steps; [|reflexivity].
  destruct (n <? 0)%Z; [reflexivity|].
  unfold stack_outputs. rewrite flat_map_some, concatenate0_stack.
  reflexivity.
Qed.

End VariablesLemmas.

Section VariablesClaims.

Context {F V Key : Type}.

Variables (add mul : F -> F -> F) (exp : F -> F) (half : F).
Variable normal_sample : Key -> Shape -> nat -> F.

(** C10.  For an engine whose sub-units (and encoder) read their
    variables without writing them, [step], the call and [encode]
    return the variables they found: after any of them the engine holds
    what it held before, and the result is the one of the engine frozen
    at those variables, so that the engine can be used again with
    identical behaviour. *)
Theorem calls_leave_engine_unchanged (self : StatefulUnsupervisedCA F V)
  (vars : V) :
  reads_only (as_StatefulCA self) -> encoder_reads_only self ->
  (forall s x,
     step_vars (as_StatefulCA self) vars s x =
     (step (freeze (as_StatefulCA self) vars) s x, vars)) /\
  (forall s input (n : Z) (all_steps : bool) (axis : option Z),
     call_vars (as_StatefulCA self) vars s input n all_steps axis =
     (r <- call (freeze (as_StatefulCA self) vars) s input n all_steps axis ;;
      Ok (r, vars))) /\
  (forall target (key : Key),
     encode_vars add mul exp half normal_sample self vars target key =
     (r <- encode add mul exp half normal_sample
             (freeze_unsupervised self vars) target key ;;
      Ok (r, vars))).
Proof.
  intros Hro Henc. split; [|split].
  - intros s x. now apply step_vars_reads_only.
  - intros s input n all_steps axis. now apply call_vars_reads_only.
  - intros target key. unfold encode_vars, encode, freeze_unsupervised.
    cbn [encoder]. specialize (Henc vars target).
    destruct (encoder_vars self vars target) as [[mean logvar] v'].
    cbn [fst snd] in *. subst v'.
    destruct (elementwise mul _ _) as [ns|e]; cbn [bind]; [|reflexivity].
    now destruct (elementwise add mean ns).
Qed.

End VariablesClaims.

Module DemoVarsFacts.

Import DemoVars.

Lemma adding_reads_only : reads_only adding.
Proof. split; reflexivity. Qed.

Lemma adding_twin_reads_only : encoder_reads_only adding_twin.
Proof. intros vars target. reflexivity. Qed.

(** Sub-units that write a variable leave it changed: after three
    transitions the counter is 3, and the same call made again gives
    another trajectory. *)
Example counting_is_written_back :
  call_vars counting 0%Z cell None 3 true None
  = Ok (mkArray [4; 1] [0; 0; 1; 3]%Z, 3%Z) /\
  call_vars counting 3%Z cell None 3 true None
  = Ok (mkArray [4; 1] [0; 3; 7; 12]%Z, 6%Z).
Proof. split; reflexivity. Qed.

(** A unit that changes the state's shape is rejected when the body is
    traced, also when no step is asked for. *)
Example grow_is_rejected_at_zero_steps :
  call Demo.grow Demo.zeros None 0 false None = Err CarryTypeError.
Proof. reflexivity. Qed.

End DemoVarsFacts.


Lemma call_zero_steps_witness :
  keeps_state_type Demo.incr /\ well_formed Demo.zeros /\
  call Demo.incr Demo.zeros None 0 false None = Ok Demo.zeros /\
  call Demo.incr Demo.zeros None 0 true None
  = Ok (mkArray (1 :: shape Demo.zeros) (data Demo.zeros)).
Proof.
  assert (Hs : well_formed Demo.zeros) by reflexivity.
  split; [apply DemoFacts.incr_keeps_state_type|]. split; [exact Hs|].
  exact (@call_zero_steps Z Demo.incr Demo.zeros None
           DemoFacts.incr_keeps_state_type Hs).
Defined.

(** C9, counterexample.  With [num_steps = -1] the call returns the
    first state, and with [input_in_axis] set and no input it returns
    the grid after three increments: in both cases a normal result. *)
Lemma call_unvalidated_returns :
  call Demo.incr Demo.zeros None (-1) false None = Ok Demo.zeros /\
  call Demo.incr Demo.zeros None 3 false (Some 0%Z)
  = Ok (mkArray [4; 4; 1] (repeat 3%Z 16)).
Proof. split; reflexivity. Qed.

Lemma call_without_validation_witness :
  keeps_state_type Demo.incr /\ well_formed Demo.zeros /\ (-2 < 0)%Z /\
  is_ok (call Demo.incr Demo.zeros None (-2) false (Some 0%Z)) = true /\
  call Demo.incr Demo.zeros None (-2) false None = Ok Demo.zeros /\
  call Demo.incr Demo.zeros None (-2) true None
  = Err (NegativeLengthError (-2)).
Proof.
  assert (Hs : well_formed Demo.zeros) by reflexivity.
  assert (Hneg : (-2 < 0)%Z) by lia.
  destruct (@call_without_validation Z Demo.incr Demo.zeros None (-2)%Z
              false 0%Z) as [_ [Hok Hnegative]].
  split; [apply DemoFacts.incr_keeps_state_type|]. split; [exact Hs|].
  split; [exact Hneg|].
  split; [exact (Hok DemoFacts.incr_keeps_state_type Hs)|].
  exact (Hnegative DemoFacts.incr_keeps_state_type Hs Hneg).
Defined.

Lemma calls_leave_engine_unchanged_witness :
  reads_only (as_StatefulCA DemoVars.adding_twin) /\
  encoder_reads_only DemoVars.adding_twin /\
  call_vars (as_StatefulCA DemoVars.adding_twin) 2%Z DemoVars.cell None 3
            true None
  = (r <- call (freeze (as_StatefulCA DemoVars.adding_twin) 2%Z)
               DemoVars.cell None 3 true None ;;
     Ok (r, 2%Z)).
Proof.
  split; [apply DemoVarsFacts.adding_reads_only|].
  split; [apply DemoVarsFacts.adding_twin_reads_only|].
  exact (proj1 (proj2 (@calls_leave_engine_unchanged Z Z Z Z.add Z.mul
                         Demo.pow2 1%Z Demo.sample DemoVars.adding_twin 2%Z
                         DemoVarsFacts.adding_reads_only
                         DemoVarsFacts.adding_twin_reads_only))
           DemoVars.cell None 3%Z true None).
Defined.

(* ================================================================== *)
(** * When the call succeeds *)

Section CallProperties.

Context {F : Type}.

Implicit Types (self : CA F) (s : Array F) (input : option (Array F)).

Lemma call_result self s input (n : nat) (all_steps : bool)
  (axis : option Z) :
  input_fits input axis n ->
  call self s input (Z.of_nat n) all_steps axis =
  if shape_eqb (shape s) (shape (step self s (traced_input axis input)))
     && keeps_shape_along self s (input_slices input axis n)
  then if all_steps
       then Ok (mkArray (S n :: shape s)
                  (concat (map data
                     (s :: states_after self s (input_slices input axis n)))))
       else Ok (iterate_steps self s (input_slices input axis n))
  else Err CarryTypeError.
Proof.
  intros Hfit. pose proof (scan_inputs_fits _ _ _ Hfit) as Hxs.
  rewrite call_of_nat, Hxs. cbn [bind].
  destruct (shape_eqb _ _); [|reflexivity]. cbn [andb].
  rewrite run_result with (xs := input_slices input axis n) by exact Hxs.
  now rewrite input_slices_length.
Qed.

Lemma shapes_kept_spec self s input (n : nat) (axis : option Z) :
  shape_eqb (shape s) (shape (step self s (traced_input axis input)))
  && keeps_shape_along self s (input_slices input axis n) = true <->
  shape (step self s (traced_input axis input)) = shape s /\
  forall i, i <= n ->
    shape (iterate_steps self s (firstn i (input_slices input axis n)))
    = shape s.
Proof.
  rewrite andb_true_iff, shape_eqb_eq, keeps_shape_along_spec.
  rewrite input_slices_length. split; intros [H1 H2]; split; auto.
Qed.

(** X3.  For an input the scan accepts and any number of steps that is
    not negative, the call succeeds exactly when the transition the
    scan traces from the first state, made whatever the number of
    steps, and every state reached along the run keep the shape of the
    first state. *)
Theorem call_succeeds_iff_shape_kept self s input (n : nat)
  (all_steps : bool) (axis : option Z) :
  input_fits input axis n ->
  is_ok (call self s input (Z.of_nat n) all_steps axis) = true <->
  shape (step self s (traced_input axis input)) = shape s /\
  forall i, i <= n ->
    shape (iterate_steps self s (firstn i (input_slices input axis n)))
    = shape s.
Proof.
  intros Hfit. rewrite call_result by exact Hfit.
  rewrite <- shapes_kept_spec.
  destruct (_ && _); [|split; discriminate].
  now destruct all_steps.
Qed.


End CallProperties.

Lemma call_succeeds_iff_shape_kept_witness :
  input_fits (Some Demo.three_inputs) (Some 0%Z) 3 /\
  shape (step Demo.add_input Demo.zeros
           (traced_input (Some 0%Z) (Some Demo.three_inputs)))
  = shape Demo.zeros /\
  forall i, i <= 3 ->
    shape (iterate_steps Demo.add_input Demo.zeros
             (firstn i (input_slices (Some Demo.three_inputs) (Some 0%Z) 3)))
    = shape Demo.zeros.
Proof.
  assert (Hfit : input_fits (Some Demo.three_inputs) (Some 0%Z) 3)
    by (simpl; repeat split; reflexivity).
  split; [exact Hfit|].
  apply (proj1 (@call_succeeds_iff_shape_kept Z Demo.add_input Demo.zeros
                  (Some Demo.three_inputs) 3 false (Some 0%Z) Hfit)).
  reflexivity.
Defined.

